(** * Billiard Triangle Game: a shallow embedding of [billiard_triangle.py]

    The physics core ([Ball]) and the round logic ([BilliardTriangleGame])
    are embedded function by function.  Python floats are idealised as the
    real numbers of the Standard Library (exact arithmetic, no rounding);
    Python ints that flow into float arithmetic are injected with [IZR].  The
    exceptions that float arithmetic can raise, among them [OverflowError] at
    a square out of the float range, are modelled in the checked variants of
    the methods (module [Checked]).  Mutable objects become explicit state
    passing: a method returns the new value of every object it may write.
    pygame's window, clock and fonts are left out, drawing is the list of the
    draw calls made; the events and the random draws are inputs. *)

From Stdlib Require Import Reals Lra Lia ZArith List Bool.
From Stdlib Require String DecimalString.
Import ListNotations.
Import String.StringSyntax.
Delimit Scope string_scope with string.

Local Open Scope R_scope.
Local Coercion IZR : Z >-> R.

(** ** Configuration constants (lines 20-43) *)

Definition SCREEN_WIDTH : Z := 800.
Definition SCREEN_HEIGHT : Z := 690.
Definition BOARD_HEIGHT : Z := 600.
Definition BALL_RADIUS : Z := 15.

Definition Color : Type := (Z * Z * Z)%type.
Definition TARGET_BALL_COLOR : Color := (255, 0, 0)%Z.
Definition PLAYER_BALL_COLOR : Color := (255, 255, 255)%Z.

Definition FRICTION : R := 99 / 100.
Definition MIN_VELOCITY : R := 1 / 10.
Definition INITIAL_SPEED : R := 22.
Definition RESTITUTION : R := 6 / 10.
Definition WALL_RESTITUTION : R := 8 / 10.

(** Comparisons of floats, as booleans. *)

Definition ltb (a b : R) : bool := if Rlt_dec a b then true else false.
Definition gtb (a b : R) : bool := ltb b a.

(** ** class Ball *)

Record Ball : Type := mkBall {
  x : R;
  y : R;
  vx : R;
  vy : R;
  color : Color;
  is_target : bool;
  moving : bool
}.

(** [Ball.__init__] (lines 51-67). *)
Definition Ball_init (x0 y0 : R) (c : Color) (target : bool) : Ball :=
  {| x := x0; y := y0; vx := 0; vy := 0;
     color := c; is_target := target; moving := false |}.

Definition set_pos (b : Ball) (x' y' : R) : Ball :=
  {| x := x'; y := y'; vx := vx b; vy := vy b;
     color := color b; is_target := is_target b; moving := moving b |}.

Definition set_vel (b : Ball) (vx' vy' : R) : Ball :=
  {| x := x b; y := y b; vx := vx'; vy := vy';
     color := color b; is_target := is_target b; moving := moving b |}.

Definition set_moving (b : Ball) (m : bool) : Ball :=
  {| x := x b; y := y b; vx := vx b; vy := vy b;
     color := color b; is_target := is_target b; moving := m |}.

Definition set_color (b : Ball) (c : Color) : Ball :=
  {| x := x b; y := y b; vx := vx b; vy := vy b;
     color := c; is_target := is_target b; moving := moving b |}.

(** One axis of the wall test of [Ball.update]: the position after the Euler
    step, the velocity component, and the far wall; returns the clamped
    position and the (possibly reflected) velocity component. *)
Definition bounce (p v : R) (limit : Z) : R * R :=
  if ltb (p - BALL_RADIUS) 0 then (IZR BALL_RADIUS, - v * WALL_RESTITUTION)
  else if gtb (p + BALL_RADIUS) limit then (limit - BALL_RADIUS, - v * WALL_RESTITUTION)
  else (p, v).

Definition speed (b : Ball) : R := sqrt (vx b ^ 2 + vy b ^ 2).

(** [Ball.update] (lines 69-99). *)
Definition update (self : Ball) : Ball :=
  if moving self then
    let x1 := x self + vx self in
    let y1 := y self + vy self in
    let '(x2, vx2) := bounce x1 (vx self) SCREEN_WIDTH in
    let '(y2, vy2) := bounce y1 (vy self) BOARD_HEIGHT in
    let vx3 := vx2 * FRICTION in
    let vy3 := vy2 * FRICTION in
    if ltb (sqrt (vx3 ^ 2 + vy3 ^ 2)) MIN_VELOCITY then
      {| x := x2; y := y2; vx := 0; vy := 0;
         color := color self; is_target := is_target self; moving := false |}
    else
      {| x := x2; y := y2; vx := vx3; vy := vy3;
         color := color self; is_target := is_target self; moving := true |}
  else self.

(** [Ball.move_towards] (lines 101-117); [speed0] is the [speed] argument. *)
Definition move_towards_speed (self : Ball) (target_x target_y speed0 : R) : Ball :=
  let dx := target_x - x self in
  let dy := target_y - y self in
  let distance := sqrt (dx ^ 2 + dy ^ 2) in
  if gtb distance 0 then
    {| x := x self; y := y self;
       vx := (dx / distance) * speed0; vy := (dy / distance) * speed0;
       color := color self; is_target := is_target self; moving := true |}
  else self.

Definition move_towards (self : Ball) (target_x target_y : R) : Ball :=
  move_towards_speed self target_x target_y INITIAL_SPEED.

(** [Ball.collide_with] (lines 119-171), with the restitution coefficient as
    a parameter [e]; the method writes both balls, so it returns both. *)
Definition collide_with_e (e : R) (self other_ball : Ball) : Ball * Ball * bool :=
  let dx := x other_ball - x self in
  let dy := y other_ball - y self in
  let distance := sqrt (dx ^ 2 + dy ^ 2) in
  if ltb distance (BALL_RADIUS * 2) then
    let overlap := BALL_RADIUS * 2 - distance in
    let '(self1, other1) :=
      if gtb distance 0 then
        (set_pos self (x self - (dx / distance) * (overlap / 2))
                      (y self - (dy / distance) * (overlap / 2)),
         set_pos other_ball (x other_ball + (dx / distance) * (overlap / 2))
                            (y other_ball + (dy / distance) * (overlap / 2)))
      else (self, other_ball) in
    let '(self2, other2) :=
      if gtb distance 0 then
        let nx := dx / distance in
        let ny := dy / distance in
        let dvx := vx other1 - vx self1 in
        let dvy := vy other1 - vy self1 in
        let dot_product := dvx * nx + dvy * ny in
        let impulse := (1 + e) * dot_product in
        (set_moving (set_vel self1 (vx self1 + impulse * nx) (vy self1 + impulse * ny)) true,
         set_moving (set_vel other1 (vx other1 - impulse * nx) (vy other1 - impulse * ny)) true)
      else (self1, other1) in
    (self2, other2, true)
  else (self, other_ball, false).

Definition collide_with : Ball -> Ball -> Ball * Ball * bool :=
  collide_with_e RESTITUTION.

(** ** class BilliardTriangleGame *)

Definition Point : Type := (R * R)%type.

(** The fields of the game object that the round logic reads or writes; the
    screen, the clock, the font and the cursor surface are rendering state. *)
Record Game : Type := mkGame {
  best_score : R;
  target_ball : Ball;
  player_balls : list Ball;
  balls_left : Z;
  placing_ball : bool;
  all_balls_stopped : bool;
  game_over : bool;
  current_score : R;
  triangle : option (list Point);
  temp_ball : option Ball
}.

(** [random.randint(a, b)] returns an integer [n] with [a <= n <= b]. *)
Definition randint_outcome (a b n : Z) : Prop := (a <= n <= b)%Z.

(** [reset_game] (lines 206-225); [target_x] and [target_y] are the results of
    the two [random.randint] calls. *)
Definition reset_game (target_x target_y : Z) (self : Game) : Game :=
  {| best_score := best_score self;
     target_ball := Ball_init target_x target_y TARGET_BALL_COLOR true;
     player_balls := [];
     balls_left := 2;
     placing_ball := false;
     all_balls_stopped := true;
     game_over := false;
     current_score := 0;
     triangle := None;
     temp_ball := None |}.

(** The two draws of [reset_game] with their ranges (lines 209-210). *)
Definition reset_game_draws (target_x target_y : Z) : Prop :=
  randint_outcome (BALL_RADIUS * 2) (SCREEN_WIDTH - BALL_RADIUS * 2) target_x /\
  randint_outcome (BALL_RADIUS * 2) (BOARD_HEIGHT - BALL_RADIUS * 2) target_y.

(** [reset_game] as a relation over all outcomes of the random draws. *)
Definition reset_game_outcome (self self' : Game) : Prop :=
  exists target_x target_y,
    reset_game_draws target_x target_y /\ self' = reset_game target_x target_y self.

(** [__init__] (lines 188-204): [best_score = 0], then [reset_game()]. *)
Definition Game_init (target_x target_y : Z) : Game :=
  {| best_score := 0;
     target_ball := Ball_init target_x target_y TARGET_BALL_COLOR true;
     player_balls := [];
     balls_left := 2;
     placing_ball := false;
     all_balls_stopped := true;
     game_over := false;
     current_score := 0;
     triangle := None;
     temp_ball := None |}.

(** [all_stopped] (lines 227-241). *)
Definition all_stopped (self : Game) : bool :=
  if moving (target_ball self) then false
  else forallb (fun ball => negb (moving ball)) (player_balls self).

(** *** [update_balls] (lines 243-255)

    The balls are shared mutable objects: the target and the entries of
    [player_balls].  A reference names one of them; [ball != other_ball]
    compares object identity ([Ball] defines no [__eq__]), that is, list
    positions. *)

Inductive Ref : Type := Target | Player (i : nat).

Inductive Call : Type :=
| CallUpdate (r : Ref)
| CallCollide (self other_ball : Ref).

Fixpoint list_update {A : Type} (l : list A) (i : nat) (a : A) : list A :=
  match l, i with
  | [], _ => []
  | _ :: t, O => a :: t
  | h :: t, S j => h :: list_update t j a
  end.

Definition get_ball (self : Game) (r : Ref) : option Ball :=
  match r with
  | Target => Some (target_ball self)
  | Player i => nth_error (player_balls self) i
  end.

Definition set_target_ball (self : Game) (b : Ball) : Game :=
  {| best_score := best_score self; target_ball := b;
     player_balls := player_balls self; balls_left := balls_left self;
     placing_ball := placing_ball self; all_balls_stopped := all_balls_stopped self;
     game_over := game_over self; current_score := current_score self;
     triangle := triangle self; temp_ball := temp_ball self |}.

Definition set_player_balls (self : Game) (l : list Ball) : Game :=
  {| best_score := best_score self; target_ball := target_ball self;
     player_balls := l; balls_left := balls_left self;
     placing_ball := placing_ball self; all_balls_stopped := all_balls_stopped self;
     game_over := game_over self; current_score := current_score self;
     triangle := triangle self; temp_ball := temp_ball self |}.

Definition put_ball (self : Game) (r : Ref) (b : Ball) : Game :=
  match r with
  | Target => set_target_ball self b
  | Player i => set_player_balls self (list_update (player_balls self) i b)
  end.

(** One method call on the shared balls: [r.update()] or
    [r1.collide_with(r2)], whose result is discarded by [update_balls]. *)
Definition exec_call (self : Game) (c : Call) : Game :=
  match c with
  | CallUpdate r =>
      match get_ball self r with
      | Some b => put_ball self r (update b)
      | None => self
      end
  | CallCollide r1 r2 =>
      match get_ball self r1, get_ball self r2 with
      | Some a, Some b =>
          let '(a', b', _) := collide_with a b in
          put_ball (put_ball self r1 a') r2 b'
      | _, _ => self
      end
  end.

(** The inner loop (lines 253-255) for the ball at position [i] of a list of
    [n] player balls. *)
Definition inner_calls (n i : nat) : list Call :=
  flat_map (fun j => if Nat.eqb i j then [] else [CallCollide (Player i) (Player j)])
           (seq 0 n).

(** The body of the outer loop (lines 248-255) for the ball at position [i]. *)
Definition outer_calls (n i : nat) : list Call :=
  CallUpdate (Player i) :: CallCollide (Player i) Target :: inner_calls n i.

(** The method calls of one [update_balls], in program order. *)
Definition update_balls_calls (n : nat) : list Call :=
  CallUpdate Target :: flat_map (outer_calls n) (seq 0 n).

Definition update_balls (self : Game) : Game :=
  fold_left exec_call (update_balls_calls (length (player_balls self))) self.

(** *** [calculate_triangle_area] (lines 257-283) *)

Definition set_triangle (self : Game) (t : option (list Point)) : Game :=
  {| best_score := best_score self; target_ball := target_ball self;
     player_balls := player_balls self; balls_left := balls_left self;
     placing_ball := placing_ball self; all_balls_stopped := all_balls_stopped self;
     game_over := game_over self; current_score := current_score self;
     triangle := t; temp_ball := temp_ball self |}.

(** Lines 272-283 on the three points: the returned area and, when the guard
    passes, the value written to [self.triangle]. *)
Definition heron (p1 p2 p3 : Point) : R * option (list Point) :=
  let a := sqrt ((fst p2 - fst p1) ^ 2 + (snd p2 - snd p1) ^ 2) in
  let b := sqrt ((fst p3 - fst p2) ^ 2 + (snd p3 - snd p2) ^ 2) in
  let c := sqrt ((fst p1 - fst p3) ^ 2 + (snd p1 - snd p3) ^ 2) in
  let s := (a + b + c) / 2 in
  if gtb s 0 && gtb s a && gtb s b && gtb s c then
    (sqrt (s * (s - a) * (s - b) * (s - c)), Some [p1; p2; p3])
  else (0, None).

(** The method returns the area and the game object after the call; the
    pattern [b0 :: b1 :: _] is the test [len(self.player_balls) < 2] followed
    by the subscripts [0] and [1]. *)
Definition calculate_triangle_area (self : Game) : R * Game :=
  match player_balls self with
  | b0 :: b1 :: _ =>
      let p1 := (x (target_ball self), y (target_ball self)) in
      let p2 := (x b0, y b0) in
      let p3 := (x b1, y b1) in
      match heron p1 p2 p3 with
      | (area, Some t) => (area, set_triangle self (Some t))
      | (area, None) => (area, self)
      end
  | _ => (0, self)
  end.

(** *** The event handlers and the per-frame update of [run] (lines 285-373) *)

Inductive Key : Type := K_ESCAPE | K_r | K_other.

Inductive Event : Type :=
| QUIT
| KEYDOWN (key : Key)
| MOUSEBUTTONDOWN (button : Z)
| MOUSEBUTTONUP (button : Z)
| MOUSEMOTION
| OTHER_EVENT.

(** What the environment supplies while an event is handled: the result of
    [pygame.mouse.get_pos()] and of the two [random.randint] calls. *)
Record Env : Type := mkEnv {
  mouse_pos : Z * Z;
  randint_x : Z;
  randint_y : Z
}.

(** The overlap test of lines 308 and 312 (and 339, 343). *)
Definition overlaps (pos : Z * Z) (ball : Ball) : bool :=
  ltb (sqrt ((fst pos - x ball) ^ 2 + (snd pos - y ball) ^ 2)) (BALL_RADIUS * 2).

(** Lines 307-313: [can_place] starts [True] and is cleared by every
    overlapping ball. *)
Definition can_place (self : Game) (pos : Z * Z) : bool :=
  let can_place0 := if overlaps pos (target_ball self) then false else true in
  fold_left (fun cp ball => if overlaps pos ball then false else cp)
            (player_balls self) can_place0.

(** The guard of line 302 without the button test. *)
Definition accepting_placement (self : Game) : bool :=
  all_stopped self && (0 <? balls_left self)%Z && negb (game_over self).

(** Lines 301-320. *)
Definition on_mouse_button_down (button : Z) (pos : Z * Z) (self : Game) : Game :=
  if (button =? 1)%Z && all_stopped self && (0 <? balls_left self)%Z
     && negb (game_over self) then
    if (snd pos <=? BOARD_HEIGHT)%Z then
      if can_place self pos then
        let new_ball := Ball_init (fst pos) (snd pos) PLAYER_BALL_COLOR false in
        {| best_score := best_score self; target_ball := target_ball self;
           player_balls := player_balls self ++ [new_ball];
           balls_left := (balls_left self - 1)%Z;
           placing_ball := true; all_balls_stopped := all_balls_stopped self;
           game_over := game_over self; current_score := current_score self;
           triangle := triangle self; temp_ball := temp_ball self |}
      else self
    else self
  else self.

(** Lines 322-331. *)
Definition on_mouse_button_up (button : Z) (self : Game) : Game :=
  if (button =? 1)%Z && placing_ball self then
    match rev (player_balls self) with
    | last_ball :: _ =>
        let last_ball1 := set_color last_ball PLAYER_BALL_COLOR in
        let last_ball2 :=
          move_towards last_ball1 (x (target_ball self)) (y (target_ball self)) in
        {| best_score := best_score self; target_ball := target_ball self;
           player_balls :=
             list_update (player_balls self) (length (player_balls self) - 1) last_ball2;
           balls_left := balls_left self;
           placing_ball := false; all_balls_stopped := false;
           game_over := game_over self; current_score := current_score self;
           triangle := triangle self; temp_ball := temp_ball self |}
    | [] =>
        {| best_score := best_score self; target_ball := target_ball self;
           player_balls := player_balls self; balls_left := balls_left self;
           placing_ball := false; all_balls_stopped := all_balls_stopped self;
           game_over := game_over self; current_score := current_score self;
           triangle := triangle self; temp_ball := temp_ball self |}
    end
  else self.

Definition set_temp_ball (self : Game) (t : option Ball) : Game :=
  {| best_score := best_score self; target_ball := target_ball self;
     player_balls := player_balls self; balls_left := balls_left self;
     placing_ball := placing_ball self; all_balls_stopped := all_balls_stopped self;
     game_over := game_over self; current_score := current_score self;
     triangle := triangle self; temp_ball := t |}.

(** Lines 333-350. *)
Definition on_mouse_motion (pos : Z * Z) (self : Game) : Game :=
  if (snd pos <=? BOARD_HEIGHT)%Z && all_stopped self && (0 <? balls_left self)%Z
     && negb (game_over self) then
    if can_place self pos then
      set_temp_ball self
        (Some (Ball_init (fst pos) (snd pos) PLAYER_BALL_COLOR false))
    else set_temp_ball self None
  else self.

(** One iteration of the event loop (lines 291-350) on the game and the
    local variable [running]. *)
Definition handle_event (env : Env) (ev : Event) (st : Game * bool) : Game * bool :=
  let '(self, running) := st in
  match ev with
  | QUIT => (self, false)
  | KEYDOWN K_ESCAPE => (self, false)
  | KEYDOWN K_r => (reset_game (randint_x env) (randint_y env) self, running)
  | KEYDOWN K_other => (self, running)
  | MOUSEBUTTONDOWN button => (on_mouse_button_down button (mouse_pos env) self, running)
  | MOUSEBUTTONUP button => (on_mouse_button_up button self, running)
  | MOUSEMOTION => (on_mouse_motion (mouse_pos env) self, running)
  | OTHER_EVENT => (self, running)
  end.

(** Lines 352-364: the physics step of a frame and the end of the round. *)
Definition tick (self : Game) : Game :=
  if negb (all_balls_stopped self) then
    let self1 := update_balls self in
    let stopped := all_stopped self1 in
    if stopped && (balls_left self1 =? 0)%Z then
      let '(area, self2) := calculate_triangle_area self1 in
      {| best_score := if gtb area (best_score self2) then area else best_score self2;
         target_ball := target_ball self2; player_balls := player_balls self2;
         balls_left := balls_left self2; placing_ball := placing_ball self2;
         all_balls_stopped := stopped; game_over := true;
         current_score := area;
         triangle := triangle self2; temp_ball := temp_ball self2 |}
    else
      {| best_score := best_score self1;
         target_ball := target_ball self1; player_balls := player_balls self1;
         balls_left := balls_left self1; placing_ball := placing_ball self1;
         all_balls_stopped := stopped; game_over := game_over self1;
         current_score := current_score self1;
         triangle := triangle self1; temp_ball := temp_ball self1 |}
  else self.

(** One pass of the [while running] loop: all pending events, then the
    physics step (drawing and frame pacing do not touch the game state). *)
Definition frame (events : list (Env * Event)) (self : Game) : Game * bool :=
  let '(self1, running) :=
    fold_left (fun st ee => handle_event (fst ee) (snd ee) st) events (self, true) in
  (tick self1, running).

(** [run] (lines 285-373) on a finite prefix of the frames' inputs. *)
Fixpoint run (frames : list (list (Env * Event))) (self : Game) : Game :=
  match frames with
  | [] => self
  | events :: rest =>
      let '(self1, running) := frame events self in
      if running then run rest self1 else self1
  end.

(** ** The same methods with Python's arithmetic faults made explicit

    Float division raises [ZeroDivisionError] on a zero divisor, [math.sqrt]
    raises [ValueError] on a negative argument, the power [x ** 2] of a float
    raises [OverflowError] when the square is too large for a float, and
    indexing a list out of range raises [IndexError].  The definitions below
    repeat the methods in an error monad, with one checked operation for
    every division by a computed value, every square root, every [** 2] and
    every subscript of the source (a division by the literal 2 has no zero
    divisor and stays as it is; float additions, subtractions and products
    raise nothing). *)

Inductive Fault : Type :=
| ZeroDivisionError
| ValueError
| OverflowError
| IndexError.

Definition Exc (A : Type) : Type := (Fault + A)%type.

Definition ret {A : Type} (a : A) : Exc A := inr a.
Definition raise {A : Type} (f : Fault) : Exc A := inl f.
Definition bind {A B : Type} (c : Exc A) (k : A -> Exc B) : Exc B :=
  match c with
  | inl f => inl f
  | inr a => k a
  end.

Notation "v <- c ;; k" := (bind c (fun v => k))
  (at level 61, c at next level, right associativity).

Definition py_div (a b : R) : Exc R :=
  if Req_dec_T b 0 then raise ZeroDivisionError else ret (a / b).

Definition py_sqrt (a : R) : Exc R :=
  if ltb a 0 then raise ValueError else ret (sqrt a).

(** The least real that rounds to infinity as a binary64 float: the largest
    finite float [2^1024 - 2^971] plus half a unit in the last place. *)
Definition FLOAT_OVERFLOW : R := 2 ^ 1024 - 2 ^ 970.

(** [a ** 2] on a float. *)
Definition py_pow2 (a : R) : Exc R :=
  if ltb (a ^ 2) FLOAT_OVERFLOW then ret (a ^ 2) else raise OverflowError.

Definition py_index {A : Type} (l : list A) (i : nat) : Exc A :=
  match nth_error l i with
  | Some a => ret a
  | None => raise IndexError
  end.

Module Checked.

Definition update (self : Ball) : Exc Ball :=
  if moving self then
    let x1 := x self + vx self in
    let y1 := y self + vy self in
    let '(x2, vx2) := bounce x1 (vx self) SCREEN_WIDTH in
    let '(y2, vy2) := bounce y1 (vy self) BOARD_HEIGHT in
    let vx3 := vx2 * FRICTION in
    let vy3 := vy2 * FRICTION in
    sx <- py_pow2 vx3 ;;
    sy <- py_pow2 vy3 ;;
    s <- py_sqrt (sx + sy) ;;
    if ltb s MIN_VELOCITY then
      ret {| x := x2; y := y2; vx := 0; vy := 0;
             color := color self; is_target := is_target self; moving := false |}
    else
      ret {| x := x2; y := y2; vx := vx3; vy := vy3;
             color := color self; is_target := is_target self; moving := true |}
  else ret self.

Definition move_towards_speed (self : Ball) (target_x target_y speed0 : R) : Exc Ball :=
  let dx := target_x - x self in
  let dy := target_y - y self in
  sx <- py_pow2 dx ;;
  sy <- py_pow2 dy ;;
  distance <- py_sqrt (sx + sy) ;;
  if gtb distance 0 then
    qx <- py_div dx distance ;;
    qy <- py_div dy distance ;;
    ret {| x := x self; y := y self; vx := qx * speed0; vy := qy * speed0;
           color := color self; is_target := is_target self; moving := true |}
  else ret self.

Definition move_towards (self : Ball) (target_x target_y : R) : Exc Ball :=
  move_towards_speed self target_x target_y INITIAL_SPEED.

Definition collide_with_e (e : R) (self other_ball : Ball) : Exc (Ball * Ball * bool) :=
  let dx := x other_ball - x self in
  let dy := y other_ball - y self in
  sx <- py_pow2 dx ;;
  sy <- py_pow2 dy ;;
  distance <- py_sqrt (sx + sy) ;;
  if ltb distance (BALL_RADIUS * 2) then
    let overlap := BALL_RADIUS * 2 - distance in
    p1 <- (if gtb distance 0 then
             q1 <- py_div dx distance ;;
             q2 <- py_div dy distance ;;
             q3 <- py_div dx distance ;;
             q4 <- py_div dy distance ;;
             ret (set_pos self (x self - q1 * (overlap / 2))
                               (y self - q2 * (overlap / 2)),
                  set_pos other_ball (x other_ball + q3 * (overlap / 2))
                                     (y other_ball + q4 * (overlap / 2)))
           else ret (self, other_ball)) ;;
    let '(self1, other1) := p1 in
    p2 <- (if gtb distance 0 then
             nx <- py_div dx distance ;;
             ny <- py_div dy distance ;;
             let dvx := vx other1 - vx self1 in
             let dvy := vy other1 - vy self1 in
             let dot_product := dvx * nx + dvy * ny in
             let impulse := (1 + e) * dot_product in
             ret (set_moving (set_vel self1 (vx self1 + impulse * nx)
                                            (vy self1 + impulse * ny)) true,
                  set_moving (set_vel other1 (vx other1 - impulse * nx)
                                             (vy other1 - impulse * ny)) true)
           else ret (self1, other1)) ;;
    let '(self2, other2) := p2 in
    ret (self2, other2, true)
  else ret (self, other_ball, false).

Definition collide_with : Ball -> Ball -> Exc (Ball * Ball * bool) :=
  collide_with_e RESTITUTION.

(** The side length [math.sqrt((q[0] - p[0])**2 + (q[1] - p[1])**2)]. *)
Definition side (p q : Point) : Exc R :=
  sx <- py_pow2 (fst q - fst p) ;;
  sy <- py_pow2 (snd q - snd p) ;;
  py_sqrt (sx + sy).

Definition heron (p1 p2 p3 : Point) : Exc (R * option (list Point)) :=
  a <- side p1 p2 ;;
  b <- side p2 p3 ;;
  c <- side p3 p1 ;;
  let s := (a + b + c) / 2 in
  if gtb s 0 && gtb s a && gtb s b && gtb s c then
    area <- py_sqrt (s * (s - a) * (s - b) * (s - c)) ;;
    ret (area, Some [p1; p2; p3])
  else ret (0, None).

(** Lines 264-283, with the four subscripts of lines 268 and 269. *)
Definition calculate_triangle_area (self : Game) : Exc (R * Game) :=
  if (length (player_balls self) <? 2)%nat then ret (0, self)
  else
    b0x <- py_index (player_balls self) 0 ;;
    b0y <- py_index (player_balls self) 0 ;;
    b1x <- py_index (player_balls self) 1 ;;
    b1y <- py_index (player_balls self) 1 ;;
    let p1 := (x (target_ball self), y (target_ball self)) in
    let p2 := (x b0x, y b0y) in
    let p3 := (x b1x, y b1y) in
    r <- heron p1 p2 p3 ;;
    match r with
    | (area, Some t) => ret (area, set_triangle self (Some t))
    | (area, None) => ret (area, self)
    end.

Definition overlaps (pos : Z * Z) (ball : Ball) : Exc bool :=
  sx <- py_pow2 (fst pos - x ball) ;;
  sy <- py_pow2 (snd pos - y ball) ;;
  d <- py_sqrt (sx + sy) ;;
  ret (ltb d (BALL_RADIUS * 2)).

Definition can_place (self : Game) (pos : Z * Z) : Exc bool :=
  o <- overlaps pos (target_ball self) ;;
  fold_left (fun acc ball =>
               cp <- acc ;;
               o' <- overlaps pos ball ;;
               ret (if o' then false else cp))
            (player_balls self) (ret (if o then false else true)).

End Checked.

(** ** Drawing: [Ball.draw], [_draw_game] and [_draw_ui] (lines 173-180, 375-424)

    A frame is drawn by a sequence of calls on pygame; the calls are kept as
    data, in program order, with the arguments the source passes. *)

Definition BG_COLOR : Color := (0, 100, 0)%Z.
Definition UI_BG_COLOR : Color := (50, 50, 50)%Z.
Definition TRIANGLE_COLOR : Z * Z * Z * Z := (255, 200, 0, 128)%Z.
Definition TEXT_COLOR : Color := (255, 255, 255)%Z.
Definition INSTRUCTION_COLOR : Color := (255, 255, 0)%Z.

(** Where a rendered text is blitted: at a top-left corner, or in the
    rectangle [get_rect(center=...)]. *)
Inductive Anchor : Type :=
| TopLeft (p : Z * Z)
| Centred (p : Z * Z).

Inductive DrawOp : Type :=
| Fill (c : Color)
| DrawRect (c : Color) (rect : Z * Z * Z * Z)
| DrawLine (c : Color) (p q : Z * Z) (width : Z)
| DrawPolygon (c : Z * Z * Z * Z) (points : list Point)
| DrawCircle (c : Color) (center : Z * Z) (radius : Z)
| DrawPreview (topleft : R * R)
| DrawText (text : String.string) (c : Color) (a : Anchor)
| Flip.

(** Python's [int(x)] on a float: truncation towards zero. *)
Definition py_int (r : R) : Z :=
  if Rlt_dec r 0 then (- Int_part (- r))%Z else Int_part r.

(** The text of [f"{n}"] for an integer [n]. *)
Definition py_str (n : Z) : String.string :=
  DecimalString.NilZero.string_of_int (Z.to_int n).

(** [Ball.draw] (lines 173-180). *)
Definition Ball_draw (self : Ball) : DrawOp :=
  DrawCircle (color self) (py_int (x self), py_int (y self)) BALL_RADIUS.

Definition click_prompt : DrawOp :=
  DrawText "Click to place a ball"%string INSTRUCTION_COLOR
           (Centred (SCREEN_WIDTH / 2, BOARD_HEIGHT / 2)%Z).

Definition restart_prompt : DrawOp :=
  DrawText "Press R to play again"%string INSTRUCTION_COLOR
           (Centred (SCREEN_WIDTH / 2, BOARD_HEIGHT / 2)%Z).

(** [_draw_ui] (lines 405-424). *)
Definition draw_ui (self : Game) : list DrawOp :=
  let info_y := (BOARD_HEIGHT + 15)%Z in
  [ DrawText (String.append "Score: "%string (py_str (py_int (current_score self))))
             TEXT_COLOR (TopLeft (20, info_y)%Z);
    DrawText (String.append "Best: "%string (py_str (py_int (best_score self))))
             TEXT_COLOR (TopLeft (20, info_y + 35)%Z) ]
  ++ (if game_over self then [restart_prompt]
      else if negb (game_over self) && all_balls_stopped self
              && (0 <? balls_left self)%Z
           then [click_prompt]
           else []).

(** Python's truth value of [self.triangle]: [None] and the empty list are
    false. *)
Definition truthy (t : option (list Point)) : bool :=
  match t with
  | Some (_ :: _) => true
  | _ => false
  end.

(** [_draw_game] (lines 375-403). *)
Definition draw_game (self : Game) : list DrawOp :=
  [ Fill UI_BG_COLOR;
    DrawRect BG_COLOR (0, 0, SCREEN_WIDTH, BOARD_HEIGHT)%Z;
    DrawLine TEXT_COLOR (0, BOARD_HEIGHT)%Z (SCREEN_WIDTH, BOARD_HEIGHT)%Z 2 ]
  ++ (if game_over self && truthy (triangle self)
      then match triangle self with
           | Some points => [DrawPolygon TRIANGLE_COLOR points]
           | None => []
           end
      else [])
  ++ Ball_draw (target_ball self) :: map Ball_draw (player_balls self)
  ++ (match temp_ball self with
      | Some ball =>
          if negb (placing_ball self) && all_balls_stopped self
             && (0 <? balls_left self)%Z
          then [DrawPreview (x ball - BALL_RADIUS, y ball - BALL_RADIUS)]
          else []
      | None => []
      end)
  ++ draw_ui self
  ++ [Flip].

(** ** Specification predicates *)

(** A ball that is reported at rest has zero velocity. *)
Definition ball_inv (b : Ball) : Prop :=
  moving b = false -> vx b = 0 /\ vy b = 0.

Definition game_inv (self : Game) : Prop :=
  ball_inv (target_ball self) /\ Forall ball_inv (player_balls self).

(** Twice the kinetic energy (unit mass) of the velocity components of two
    balls along the direction [(nx, ny)]. *)
Definition normal_energy (nx ny : R) (a b : Ball) : R :=
  (vx a * nx + vy a * ny) ^ 2 + (vx b * nx + vy b * ny) ^ 2.

Definition distance_to (pos : Z * Z) (ball : Ball) : R :=
  sqrt ((fst pos - x ball) ^ 2 + (snd pos - y ball) ^ 2).

Definition centre_distance (a b : Ball) : R :=
  sqrt ((x b - x a) ^ 2 + (y b - y a) ^ 2).

(** The conditions under which a place command at [pos] is to be accepted:
    the round accepts a placement, the point lies in the board's vertical
    extent, from 0 to [BOARD_HEIGHT], and no ball is closer than two
    radii. *)
Definition placement_conditions (self : Game) (pos : Z * Z) : Prop :=
  accepting_placement self = true /\
  (0 <= snd pos <= BOARD_HEIGHT)%Z /\
  BALL_RADIUS * 2 <= distance_to pos (target_ball self) /\
  Forall (fun ball => BALL_RADIUS * 2 <= distance_to pos ball) (player_balls self).

(** The conditions the code tests (lines 302, 305, 308 and 312): as above,
    but of the vertical extent only [mouse_pos[1] <= BOARD_HEIGHT]. *)
Definition placement_guard (self : Game) (pos : Z * Z) : Prop :=
  accepting_placement self = true /\
  (snd pos <= BOARD_HEIGHT)%Z /\
  BALL_RADIUS * 2 <= distance_to pos (target_ball self) /\
  Forall (fun ball => BALL_RADIUS * 2 <= distance_to pos ball) (player_balls self).

(** The game after an accepted placement at [pos] (lines 317-320). *)
Definition placed (self : Game) (pos : Z * Z) : Game :=
  {| best_score := best_score self; target_ball := target_ball self;
     player_balls :=
       player_balls self ++ [Ball_init (fst pos) (snd pos) PLAYER_BALL_COLOR false];
     balls_left := (balls_left self - 1)%Z;
     placing_ball := true; all_balls_stopped := all_balls_stopped self;
     game_over := game_over self; current_score := current_score self;
     triangle := triangle self; temp_ball := temp_ball self |}.

(** The frame in which the round becomes finished: the balls were still
    being updated, and after [update_balls] every ball is at rest with no
    ball left to place (lines 353, 358, 359). *)
Definition finishes (self : Game) : bool :=
  negb (all_balls_stopped self) && all_stopped (update_balls self)
  && (balls_left (update_balls self) =? 0)%Z.

(** Counting the calls of a schedule. *)
Definition Ref_eqb (r1 r2 : Ref) : bool :=
  match r1, r2 with
  | Target, Target => true
  | Player i, Player j => Nat.eqb i j
  | _, _ => false
  end.

Definition is_update (r : Ref) (c : Call) : bool :=
  match c with
  | CallUpdate r' => Ref_eqb r' r
  | CallCollide _ _ => false
  end.

Definition is_collide (r1 r2 : Ref) (c : Call) : bool :=
  match c with
  | CallUpdate _ => false
  | CallCollide a b => Ref_eqb a r1 && Ref_eqb b r2
  end.

Definition count (p : Call -> bool) (calls : list Call) : nat :=
  length (filter p calls).

(** How often [collide_with] is applied to the unordered pair [{r1, r2}]. *)
Definition pair_applications (calls : list Call) (r1 r2 : Ref) : nat :=
  count (fun c => is_collide r1 r2 c || is_collide r2 r1 c) calls.

(** A checked computation returns [v] or raises [OverflowError], and
    nothing else. *)
Definition returns_or_overflows {A : Type} (c : Exc A) (v : A) : Prop :=
  c = inr v \/ c = inl OverflowError.

(** ** Example states *)

(** A player ball moving right at 5 units per tick, and a resting ball whose
    centre is 24 units to its right (the two overlap by 6). *)
Definition striker : Ball :=
  {| x := 100; y := 100; vx := 5; vy := 0;
     color := PLAYER_BALL_COLOR; is_target := false; moving := true |}.

Definition sitter : Ball := Ball_init 124 100 PLAYER_BALL_COLOR false.

(** A ball in the middle of the board moving right at 2.5e154 units per
    tick. *)
Definition runaway : Ball :=
  {| x := 400; y := 300; vx := 25 * 10 ^ 153; vy := 0;
     color := PLAYER_BALL_COLOR; is_target := false; moving := true |}.

(** A ball creeping right at exactly the stop threshold. *)
Definition creeper : Ball :=
  {| x := 100; y := 100; vx := 1 / 10; vy := 0;
     color := PLAYER_BALL_COLOR; is_target := false; moving := true |}.

(** A round with both player balls placed and at rest, before the area is
    computed: the centres form a right triangle with legs 300 and 400. *)
Definition settled_game : Game :=
  {| best_score := 0;
     target_ball := Ball_init 100 100 TARGET_BALL_COLOR true;
     player_balls := [Ball_init 400 100 PLAYER_BALL_COLOR false;
                      Ball_init 100 500 PLAYER_BALL_COLOR false];
     balls_left := 0;
     placing_ball := false;
     all_balls_stopped := false;
     game_over := false;
     current_score := 0;
     triangle := None;
     temp_ball := None |}.

(** The first shot of a round whose target was drawn at (146, 300): a left
    click at (100, 300) and the release of the button, in one frame. *)
Definition first_shot : list (Env * Event) :=
  [ ({| mouse_pos := (100, 300)%Z; randint_x := 0; randint_y := 0 |}, MOUSEBUTTONDOWN 1);
    ({| mouse_pos := (100, 300)%Z; randint_x := 0; randint_y := 0 |}, MOUSEBUTTONUP 1) ].

(** Two overlapping player balls far from the target: ball 0 at rest, ball 1
    moving away from it. *)
Definition overlapping_pair : Game :=
  {| best_score := 0;
     target_ball := Ball_init 400 400 TARGET_BALL_COLOR true;
     player_balls := [ Ball_init 100 100 PLAYER_BALL_COLOR false;
                       {| x := 124; y := 100; vx := 5; vy := 0;
                          color := PLAYER_BALL_COLOR; is_target := false;
                          moving := true |} ];
     balls_left := 0;
     placing_ball := false;
     all_balls_stopped := false;
     game_over := false;
     current_score := 0;
     triangle := None;
     temp_ball := None |}.

(** ** Predicates on the round state *)

(** What a ball is, as opposed to where it is and how it moves. *)
Definition identity (b : Ball) : Color * bool := (color b, is_target b).

(** [self'] differs from [self] at most in the positions, velocities and
    moving flags of the balls. *)
Definition same_round (self self' : Game) : Prop :=
  best_score self' = best_score self /\
  balls_left self' = balls_left self /\
  placing_ball self' = placing_ball self /\
  all_balls_stopped self' = all_balls_stopped self /\
  game_over self' = game_over self /\
  current_score self' = current_score self /\
  triangle self' = triangle self /\
  temp_ball self' = temp_ball self /\
  identity (target_ball self') = identity (target_ball self) /\
  map identity (player_balls self') = map identity (player_balls self).

(** The ball that [player_balls[-1]] denotes is not centred on the target. *)
Definition last_off_target (self : Game) : Prop :=
  match rev (player_balls self) with
  | last_ball :: _ =>
      x last_ball <> x (target_ball self) \/ y last_ball <> y (target_ball self)
  | [] => False
  end.

(** The relations between the counters and flags of the game object that
    hold between any two steps of the main loop. *)
Definition round_inv (self : Game) : Prop :=
  (Z.of_nat (length (player_balls self)) + balls_left self = 2)%Z /\
  (0 <= balls_left self)%Z /\
  all_balls_stopped self = all_stopped self /\
  (game_over self = true ->
     balls_left self = 0%Z /\ all_balls_stopped self = true /\
     placing_ball self = false) /\
  (placing_ball self = true ->
     all_balls_stopped self = true /\ last_off_target self).

(** No event of the frames is a press of the R key. *)
Definition no_reset (frames : list (list (Env * Event))) : Prop :=
  Forall (Forall (fun ee => snd ee <> KEYDOWN K_r)) frames.

(** A finished round: both player balls placed and at rest, the score
    computed and the triangle stored. *)
Definition finished_game : Game :=
  {| best_score := 60000;
     target_ball := Ball_init 100 100 TARGET_BALL_COLOR true;
     player_balls := [Ball_init 400 100 PLAYER_BALL_COLOR false;
                      Ball_init 100 500 PLAYER_BALL_COLOR false];
     balls_left := 0;
     placing_ball := false;
     all_balls_stopped := true;
     game_over := true;
     current_score := 60000;
     triangle := Some [(100, 100); (400, 100); (100, 500)];
     temp_ball := None |}.

(** The events that end the main loop (lines 292-297). *)
Definition is_quit (ev : Event) : bool :=
  match ev with
  | QUIT | KEYDOWN K_ESCAPE => true
  | _ => false
  end.

Definition quits (events : list (Env * Event)) : bool :=
  existsb (fun ee => is_quit (snd ee)) events.

(** The current score is never negative and never above the best score. *)
Definition score_inv (self : Game) : Prop :=
  0 <= current_score self <= best_score self.

(** * Proofs *)

(** ** Comparisons and square roots *)

Lemma ltb_true (a b : R) : ltb a b = true <-> a < b.
Proof. unfold ltb. destruct (Rlt_dec a b); split; intros; auto; discriminate. Qed.

Lemma ltb_false (a b : R) : ltb a b = false <-> b <= a.
Proof.
  unfold ltb. destruct (Rlt_dec a b); split; intros; auto; try discriminate; lra.
Qed.

Lemma gtb_true (a b : R) : gtb a b = true <-> b < a.
Proof. apply ltb_true. Qed.

Lemma gtb_false (a b : R) : gtb a b = false <-> a <= b.
Proof. apply ltb_false. Qed.

Lemma sum_sq_nonneg (a b : R) : 0 <= a ^ 2 + b ^ 2.
Proof. nra. Qed.

Lemma sqrt_of_square (a r : R) : 0 <= r -> a = r * r -> sqrt a = r.
Proof. intros Hr ->. now apply sqrt_square. Qed.

Lemma sqrt_sum_sq_zero (a b : R) : sqrt (a ^ 2 + b ^ 2) = 0 <-> a = 0 /\ b = 0.
Proof.
  split.
  - intros H. apply sqrt_eq_0 in H; [nra | apply sum_sq_nonneg].
  - intros [-> ->]. replace (0 ^ 2 + 0 ^ 2) with 0 by ring. apply sqrt_0.
Qed.

Lemma sqrt_ge_sq (a c : R) : 0 <= a -> 0 <= c -> c <= sqrt a -> c ^ 2 <= a.
Proof.
  intros Ha Hc H.
  rewrite <- (sqrt_sqrt a Ha). nra.
Qed.

(** ** The rest invariant of a ball *)

Lemma bounce_cases (p v : R) (limit : Z) :
  snd (bounce p v limit) = v \/ snd (bounce p v limit) = - v * WALL_RESTITUTION.
Proof.
  unfold bounce.
  destruct (ltb _ _); [right; reflexivity |].
  destruct (gtb _ _); [right | left]; reflexivity.
Qed.

Lemma bounce_sq (p v : R) (limit : Z) : snd (bounce p v limit) ^ 2 <= v ^ 2.
Proof.
  destruct (bounce_cases p v limit) as [-> | ->]; unfold WALL_RESTITUTION; nra.
Qed.

Lemma bounce_far (p v : R) (limit : Z) :
  0 <= p - BALL_RADIUS -> limit < p + BALL_RADIUS ->
  bounce p v limit = (limit - BALL_RADIUS, - v * WALL_RESTITUTION).
Proof.
  intros H1 H2. unfold bounce.
  now rewrite (proj2 (ltb_false _ _) H1), (proj2 (gtb_true _ _) H2).
Qed.

Lemma bounce_inside (p v : R) (limit : Z) :
  0 <= p - BALL_RADIUS -> p + BALL_RADIUS <= limit ->
  bounce p v limit = (p, v).
Proof.
  intros H1 H2. unfold bounce.
  now rewrite (proj2 (ltb_false _ _) H1), (proj2 (gtb_false _ _) H2).
Qed.

(** One tick of [striker]: no wall is reached and the ball keeps moving
    at 4.95 units per tick. *)
Lemma update_striker :
  update striker =
  {| x := 100 + 5; y := 100 + 0; vx := 5 * FRICTION; vy := 0 * FRICTION;
     color := PLAYER_BALL_COLOR; is_target := false; moving := true |}.
Proof.
  unfold update, striker. cbn [moving x y vx vy color is_target].
  rewrite !bounce_inside
    by (unfold BALL_RADIUS, SCREEN_WIDTH, BOARD_HEIGHT; lra).
  assert (Hs : sqrt ((5 * FRICTION) ^ 2 + (0 * FRICTION) ^ 2) = 495 / 100)
    by (apply sqrt_of_square; unfold FRICTION; lra).
  rewrite Hs.
  assert (Hf : ltb (495 / 100) MIN_VELOCITY = false)
    by (apply ltb_false; unfold MIN_VELOCITY; lra).
  rewrite Hf. reflexivity.
Qed.

(** One tick of [creeper]: friction takes its speed from 0.1 to 0.099,
    below the threshold, and the ball is stopped. *)
Lemma update_creeper :
  update creeper =
  {| x := 100 + 1 / 10; y := 100 + 0; vx := 0; vy := 0;
     color := PLAYER_BALL_COLOR; is_target := false; moving := false |}.
Proof.
  unfold update, creeper. cbn [moving x y vx vy color is_target].
  rewrite !bounce_inside
    by (unfold BALL_RADIUS, SCREEN_WIDTH, BOARD_HEIGHT; lra).
  assert (Hs : sqrt ((1 / 10 * FRICTION) ^ 2 + (0 * FRICTION) ^ 2) = 99 / 1000)
    by (apply sqrt_of_square; unfold FRICTION; lra).
  rewrite Hs.
  assert (Hf : ltb (99 / 1000) MIN_VELOCITY = true)
    by (apply ltb_true; unfold MIN_VELOCITY; lra).
  rewrite Hf. reflexivity.
Qed.

Lemma update_rest (b : Ball) : moving b = false -> update b = b.
Proof. intros H. unfold update. now rewrite H. Qed.

Lemma update_inv_moving (b : Ball) : moving b = true -> ball_inv (update b).
Proof.
  intros H. unfold update, ball_inv. rewrite H.
  destruct (bounce _ _ SCREEN_WIDTH) as [x2 vx2].
  destruct (bounce _ _ BOARD_HEIGHT) as [y2 vy2].
  destruct (ltb _ _); simpl; intros; [split; reflexivity | discriminate].
Qed.

Lemma update_inv (b : Ball) : ball_inv b -> ball_inv (update b).
Proof.
  intros Hb. destruct (moving b) eqn:E.
  - now apply update_inv_moving.
  - now rewrite update_rest.
Qed.

Lemma Ball_init_inv (x0 y0 : R) (c : Color) (t : bool) : ball_inv (Ball_init x0 y0 c t).
Proof. unfold ball_inv. simpl. auto. Qed.

Lemma move_towards_speed_inv (b : Ball) (tx ty s : R) :
  ball_inv b -> ball_inv (move_towards_speed b tx ty s).
Proof.
  intros Hb. unfold move_towards_speed.
  destruct (gtb _ _); [| exact Hb].
  unfold ball_inv. simpl. discriminate.
Qed.

Lemma set_color_inv (b : Ball) (c : Color) : ball_inv b -> ball_inv (set_color b c).
Proof. unfold ball_inv. simpl. auto. Qed.

Lemma collide_with_e_inv (e : R) (a b : Ball) :
  ball_inv a -> ball_inv b ->
  ball_inv (fst (fst (collide_with_e e a b))) /\
  ball_inv (snd (fst (collide_with_e e a b))).
Proof.
  intros Ha Hb. unfold collide_with_e.
  destruct (ltb _ _); [| simpl; auto].
  destruct (gtb _ _); simpl; [| auto].
  split; unfold ball_inv; simpl; discriminate.
Qed.

(** ** The rest invariant over the whole game *)

Lemma Forall_list_update {A : Type} (P : A -> Prop) (l : list A) (i : nat) (a : A) :
  Forall P l -> P a -> Forall P (list_update l i a).
Proof.
  intros Hl Ha. revert i.
  induction Hl as [| h t Hh Ht IH]; intros i; simpl.
  - constructor.
  - destruct i; constructor; auto.
Qed.

Lemma Forall_nth_error {A : Type} (P : A -> Prop) (l : list A) (i : nat) (a : A) :
  Forall P l -> nth_error l i = Some a -> P a.
Proof.
  intros Hl H. rewrite Forall_forall in Hl.
  apply Hl. eapply nth_error_In; eauto.
Qed.

Lemma get_ball_inv (self : Game) (r : Ref) (b : Ball) :
  game_inv self -> get_ball self r = Some b -> ball_inv b.
Proof.
  intros [Ht Hp] H. destruct r; simpl in H.
  - now inversion H; subst.
  - eapply Forall_nth_error; eauto.
Qed.

Lemma put_ball_inv (self : Game) (r : Ref) (b : Ball) :
  game_inv self -> ball_inv b -> game_inv (put_ball self r b).
Proof.
  intros [Ht Hp] Hb. destruct r; split; simpl; auto.
  now apply Forall_list_update.
Qed.

Lemma exec_call_inv (self : Game) (c : Call) : game_inv self -> game_inv (exec_call self c).
Proof.
  intros H. destruct c as [r | r1 r2]; simpl.
  - destruct (get_ball self r) eqn:E; [| exact H].
    apply put_ball_inv; [exact H |].
    apply update_inv. eapply get_ball_inv; eauto.
  - destruct (get_ball self r1) as [a |] eqn:E1; [| exact H].
    destruct (get_ball self r2) as [b |] eqn:E2; [| exact H].
    pose proof (collide_with_e_inv RESTITUTION a b
                  (get_ball_inv _ _ _ H E1) (get_ball_inv _ _ _ H E2)) as [Ha Hb].
    fold collide_with in Ha, Hb.
    destruct (collide_with a b) as [[a' b'] hit]. simpl in Ha, Hb.
    apply put_ball_inv; [apply put_ball_inv |]; assumption.
Qed.

Lemma fold_exec_call_inv (calls : list Call) (self : Game) :
  game_inv self -> game_inv (fold_left exec_call calls self).
Proof.
  revert self. induction calls as [| c cs IH]; intros self H; simpl; [exact H |].
  apply IH. now apply exec_call_inv.
Qed.

Lemma update_balls_inv (self : Game) : game_inv self -> game_inv (update_balls self).
Proof. apply fold_exec_call_inv. Qed.

Lemma calculate_triangle_area_balls (self : Game) :
  target_ball (snd (calculate_triangle_area self)) = target_ball self /\
  player_balls (snd (calculate_triangle_area self)) = player_balls self.
Proof.
  unfold calculate_triangle_area.
  destruct (player_balls self) as [| b0 [| b1 rest]] eqn:E; simpl; auto.
  destruct (heron _ _ _) as [area [t |]]; simpl; auto.
Qed.

Lemma tick_inv (self : Game) : game_inv self -> game_inv (tick self).
Proof.
  intros H. unfold tick.
  destruct (negb (all_balls_stopped self)); [| exact H].
  pose proof (update_balls_inv self H) as H1.
  destruct (all_stopped (update_balls self) && _)%bool.
  - pose proof (calculate_triangle_area_balls (update_balls self)) as [Et Ep].
    destruct (calculate_triangle_area (update_balls self)) as [area self2].
    simpl in Et, Ep. unfold game_inv. simpl. rewrite Et, Ep. exact H1.
  - exact H1.
Qed.

Lemma reset_game_inv (tx ty : Z) (self : Game) : game_inv (reset_game tx ty self).
Proof. split; simpl; [apply Ball_init_inv | constructor]. Qed.

Lemma Game_init_inv (tx ty : Z) : game_inv (Game_init tx ty).
Proof. split; simpl; [apply Ball_init_inv | constructor]. Qed.

Lemma on_mouse_button_down_inv (button : Z) (pos : Z * Z) (self : Game) :
  game_inv self -> game_inv (on_mouse_button_down button pos self).
Proof.
  intros [Ht Hp]. unfold on_mouse_button_down.
  destruct (_ && _)%bool; [| now split].
  destruct (_ <=? _)%Z; [| now split].
  destruct (can_place self pos); [| now split].
  split; simpl; [exact Ht |].
  apply Forall_app. split; [exact Hp |].
  constructor; [apply Ball_init_inv | constructor].
Qed.

Lemma on_mouse_button_up_inv (button : Z) (self : Game) :
  game_inv self -> game_inv (on_mouse_button_up button self).
Proof.
  intros [Ht Hp]. unfold on_mouse_button_up.
  destruct (_ && _)%bool; [| now split].
  destruct (rev (player_balls self)) as [| last_ball rest] eqn:E; [now split |].
  split; simpl; [exact Ht |].
  apply Forall_list_update; [exact Hp |].
  apply move_towards_speed_inv, set_color_inv.
  rewrite Forall_forall in Hp. apply Hp.
  apply in_rev. rewrite E. now left.
Qed.

Lemma on_mouse_motion_inv (pos : Z * Z) (self : Game) :
  game_inv self -> game_inv (on_mouse_motion pos self).
Proof.
  intros H. unfold on_mouse_motion.
  destruct (_ && _)%bool; [| exact H].
  destruct (can_place self pos); exact H.
Qed.

Lemma handle_event_inv (env : Env) (ev : Event) (st : Game * bool) :
  game_inv (fst st) -> game_inv (fst (handle_event env ev st)).
Proof.
  destruct st as [self running]. simpl. intros H.
  destruct ev as [| [| |] | button | button | |]; simpl; auto.
  - apply reset_game_inv.
  - now apply on_mouse_button_down_inv.
  - now apply on_mouse_button_up_inv.
  - now apply on_mouse_motion_inv.
Qed.

Lemma fold_handle_event_inv (events : list (Env * Event)) (st : Game * bool) :
  game_inv (fst st) ->
  game_inv (fst (fold_left (fun st ee => handle_event (fst ee) (snd ee) st) events st)).
Proof.
  revert st. induction events as [| ee es IH]; intros st H; simpl; [exact H |].
  apply IH. now apply handle_event_inv.
Qed.

Lemma frame_inv (events : list (Env * Event)) (self : Game) :
  game_inv self -> game_inv (fst (frame events self)).
Proof.
  intros H. unfold frame.
  pose proof (fold_handle_event_inv events (self, true) H) as H1.
  destruct (fold_left _ events (self, true)) as [self1 running].
  simpl in *. now apply tick_inv.
Qed.

Lemma run_inv (frames : list (list (Env * Event))) (self : Game) :
  game_inv self -> game_inv (run frames self).
Proof.
  revert self. induction frames as [| events rest IH]; intros self H; simpl; [exact H |].
  pose proof (frame_inv events self H) as H1.
  destruct (frame events self) as [self1 running]. simpl in H1.
  destruct running; auto.
Qed.

(** C10: every [Ball] keeps the invariant "[moving == False] implies zero
    velocity".  It holds for a freshly constructed ball, [update],
    [move_towards] (for any speed) and [collide_with] (for both balls, and any
    restitution coefficient) preserve it, and [update] establishes it for a
    moving ball whatever its velocity was; hence it holds for the target and
    every player ball of every game state the main loop can reach. *)
Theorem C10_rest_means_zero_velocity :
  (forall x0 y0 c t, ball_inv (Ball_init x0 y0 c t)) /\
  (forall b, moving b = true \/ ball_inv b -> ball_inv (update b)) /\
  (forall b tx ty s, ball_inv b -> ball_inv (move_towards_speed b tx ty s)) /\
  (forall e a b, ball_inv a -> ball_inv b ->
     ball_inv (fst (fst (collide_with_e e a b))) /\
     ball_inv (snd (fst (collide_with_e e a b)))) /\
  (forall frames tx ty b,
     let self := run frames (Game_init tx ty) in
     b = target_ball self \/ In b (player_balls self) ->
     moving b = false -> vx b = 0 /\ vy b = 0).
Proof.
  split; [exact Ball_init_inv |].
  split; [intros b [H | H]; [now apply update_inv_moving | now apply update_inv] |].
  split; [exact move_towards_speed_inv |].
  split; [exact collide_with_e_inv |].
  intros frames tx ty b self Hb.
  destruct (run_inv frames (Game_init tx ty) (Game_init_inv tx ty)) as [Ht Hp].
  fold self in Ht, Hp.
  destruct Hb as [-> | Hin]; [exact Ht |].
  rewrite Forall_forall in Hp. now apply Hp.
Qed.

(** ** One integration step: the stop threshold and the decay of the speed *)

Lemma update_moving_threshold (b : Ball) :
  moving (update b) = true -> MIN_VELOCITY <= speed (update b).
Proof.
  unfold update, speed.
  destruct (moving b) eqn:Em.
  - destruct (bounce _ _ SCREEN_WIDTH) as [x2 vx2].
    destruct (bounce _ _ BOARD_HEIGHT) as [y2 vy2].
    destruct (ltb _ _) eqn:E; simpl; [discriminate |].
    intros _. now apply ltb_false in E.
  - intros H. congruence.
Qed.

Lemma update_energy (b : Ball) :
  moving b = true ->
  vx (update b) ^ 2 + vy (update b) ^ 2 <= FRICTION ^ 2 * (vx b ^ 2 + vy b ^ 2).
Proof.
  intros Em. unfold update. rewrite Em.
  pose proof (bounce_sq (x b + vx b) (vx b) SCREEN_WIDTH) as Hx.
  pose proof (bounce_sq (y b + vy b) (vy b) BOARD_HEIGHT) as Hy.
  destruct (bounce _ _ SCREEN_WIDTH) as [x2 vx2].
  destruct (bounce _ _ BOARD_HEIGHT) as [y2 vy2].
  simpl in Hx, Hy. unfold FRICTION.
  destruct (ltb _ _); simpl; nra.
Qed.

Lemma iter_update_moving_prev (n : nat) (b : Ball) :
  moving (Nat.iter (S n) update b) = true -> moving (Nat.iter n update b) = true.
Proof.
  change (Nat.iter (S n) update b) with (update (Nat.iter n update b)).
  destruct (moving (Nat.iter n update b)) eqn:E; [reflexivity |].
  rewrite (update_rest _ E). congruence.
Qed.

Lemma iter_update_energy (n : nat) (b : Ball) :
  moving (Nat.iter n update b) = true ->
  vx (Nat.iter n update b) ^ 2 + vy (Nat.iter n update b) ^ 2
  <= (FRICTION ^ 2) ^ n * (vx b ^ 2 + vy b ^ 2).
Proof.
  induction n as [| n IH]; intros Hm.
  - simpl. lra.
  - pose proof (iter_update_moving_prev n b Hm) as Hp.
    specialize (IH Hp).
    pose proof (update_energy _ Hp) as Hu.
    change (Nat.iter (S n) update b) with (update (Nat.iter n update b)).
    change ((FRICTION ^ 2) ^ S n) with (FRICTION ^ 2 * (FRICTION ^ 2) ^ n).
    assert (0 <= FRICTION ^ 2) by (unfold FRICTION; nra).
    nra.
Qed.

Lemma iter_update_inv (n : nat) (b : Ball) :
  ball_inv b -> ball_inv (Nat.iter n update b).
Proof.
  intros H. induction n as [| n IH]; simpl; [exact H | now apply update_inv].
Qed.

(** C5: after one [update] a ball (of any reachable state, where a resting
    ball has zero velocity, see C10) is in one of two states: speed exactly 0
    with [moving] cleared, or speed at least [MIN_VELOCITY] with [moving]
    set.  In particular no ball ends the step moving with a speed strictly
    below the threshold. *)
Theorem C5_speed_zero_or_above_threshold (b : Ball) :
  ball_inv b ->
  ((speed (update b) = 0 /\ moving (update b) = false) \/
   (MIN_VELOCITY <= speed (update b) /\ moving (update b) = true)) /\
  ~ (moving (update b) = true /\ speed (update b) < MIN_VELOCITY).
Proof.
  intros Hb. split.
  - destruct (moving (update b)) eqn:E.
    + right. split; [now apply update_moving_threshold | reflexivity].
    + left. split; [| reflexivity].
      destruct (update_inv b Hb E) as [Hx Hy].
      unfold speed. apply sqrt_sum_sq_zero. now split.
  - intros [Hm Hs]. apply update_moving_threshold in Hm. lra.
Qed.

(** C5 on both sides of the threshold: [striker] (speed 5) is still moving
    after one [update], with speed at least [MIN_VELOCITY]; [creeper] (speed
    0.1, which friction takes to 0.099) is stopped with speed exactly 0. *)
Lemma C5_witness :
  (ball_inv striker /\
   MIN_VELOCITY <= speed (update striker) /\ moving (update striker) = true) /\
  (ball_inv creeper /\
   speed (update creeper) = 0 /\ moving (update creeper) = false).
Proof.
  assert (Hs : ball_inv striker) by (intros H; discriminate H).
  assert (Hc : ball_inv creeper) by (intros H; discriminate H).
  split; (split; [assumption |]).
  - destruct (proj1 (C5_speed_zero_or_above_threshold striker Hs))
      as [[_ Hm] | H]; [| exact H].
    rewrite update_striker in Hm. discriminate Hm.
  - destruct (proj1 (C5_speed_zero_or_above_threshold creeper Hc))
      as [H | [_ Hm]]; [exact H |].
    rewrite update_creeper in Hm. discriminate Hm.
Defined.

(** C7: a moving ball that is only integrated (no collision in between)
    comes to rest after finitely many ticks and stays at rest: there is a
    tick count [n] from which on [moving] is false and the velocity is zero.
    Each tick multiplies the squared speed by at most [FRICTION ^ 2 < 1], and
    a ball still moving after a tick has speed at least [MIN_VELOCITY]. *)
Theorem C7_settling_terminates (b : Ball) :
  moving b = true ->
  exists n : nat, forall m : nat, (n <= m)%nat ->
    moving (Nat.iter m update b) = false /\
    vx (Nat.iter m update b) = 0 /\ vy (Nat.iter m update b) = 0.
Proof.
  intros Hm.
  set (E := vx b ^ 2 + vy b ^ 2).
  assert (HE : 0 <= E) by apply sum_sq_nonneg.
  assert (Hq : Rabs (FRICTION ^ 2) < 1).
  { rewrite Rabs_right; unfold FRICTION; lra. }
  assert (Hy : 0 < MIN_VELOCITY ^ 2 / (E + 1)).
  { apply Rdiv_lt_0_compat; [unfold MIN_VELOCITY |]; lra. }
  destruct (pow_lt_1_zero _ Hq _ Hy) as [N HN].
  exists (S N). intros m Hle.
  assert (Hrest : moving (Nat.iter m update b) = false).
  { destruct (moving (Nat.iter m update b)) eqn:Ei; [exfalso | reflexivity].
    pose proof (iter_update_energy m b Ei) as Hen. fold E in Hen.
    destruct m as [| m']; [lia |].
    pose proof (update_moving_threshold (Nat.iter m' update b) Ei) as Hth.
    change (update (Nat.iter m' update b)) with (Nat.iter (S m') update b) in Hth.
    unfold speed in Hth.
    apply sqrt_ge_sq in Hth;
      [| apply sum_sq_nonneg | unfold MIN_VELOCITY; lra].
    assert (HNm : (S m' >= N)%nat) by lia.
    specialize (HN (S m') HNm).
    rewrite Rabs_right in HN
      by (apply Rle_ge, pow_le; unfold FRICTION; lra).
    assert (Hpos : 0 <= (FRICTION ^ 2) ^ S m')
      by (apply pow_le; unfold FRICTION; lra).
    assert (Hbound : (FRICTION ^ 2) ^ S m' * E <= MIN_VELOCITY ^ 2 / (E + 1) * E)
      by (apply Rmult_le_compat_r; lra).
    assert (Hfrac : MIN_VELOCITY ^ 2 / (E + 1) * E < MIN_VELOCITY ^ 2).
    { unfold Rdiv. rewrite Rmult_assoc.
      rewrite <- (Rmult_1_r (MIN_VELOCITY ^ 2)) at 2.
      apply Rmult_lt_compat_l; [unfold MIN_VELOCITY; lra |].
      apply (Rmult_lt_reg_l (E + 1)); [lra |].
      rewrite <- Rmult_assoc, Rinv_r by lra. lra. }
    lra. }
  split; [exact Hrest |].
  apply (iter_update_inv m b); [| exact Hrest].
  unfold ball_inv. rewrite Hm. discriminate.
Qed.

(** C7 at [striker], a ball moving at 5 units per tick. *)
Lemma C7_witness :
  moving striker = true /\
  exists n : nat, forall m : nat, (n <= m)%nat ->
    moving (Nat.iter m update striker) = false /\
    vx (Nat.iter m update striker) = 0 /\ vy (Nat.iter m update striker) = 0.
Proof.
  split; [reflexivity |].
  apply (C7_settling_terminates striker). reflexivity.
Defined.

(** ** Collision response: momentum and the energy of the normal components *)

Ltac ball_simpl :=
  unfold set_pos, set_vel, set_moving, set_color;
  cbn [fst snd x y vx vy color is_target moving].

Lemma Ball_ext (a b : Ball) :
  x a = x b -> y a = y b -> vx a = vx b -> vy a = vy b ->
  color a = color b -> is_target a = is_target b -> moving a = moving b ->
  a = b.
Proof. destruct a, b. cbn. intros; subst; reflexivity. Qed.

Ltac ball_eq :=
  apply Ball_ext; cbn [x y vx vy color is_target moving];
  first [reflexivity | field | lra].

Ltac collision_eq :=
  apply f_equal2; [apply f_equal2; ball_eq | reflexivity].

Ltac decide_ltb :=
  unfold gtb;
  repeat match goal with
         | |- context [ltb ?a ?b] =>
             first [ rewrite (proj2 (ltb_true a b)) by lra
                   | rewrite (proj2 (ltb_false a b)) by lra ]
         end.

Lemma unit_normal (dx dy : R) :
  0 < sqrt (dx ^ 2 + dy ^ 2) ->
  (dx / sqrt (dx ^ 2 + dy ^ 2)) ^ 2 + (dy / sqrt (dx ^ 2 + dy ^ 2)) ^ 2 = 1.
Proof.
  intros Hd.
  pose proof (sqrt_sqrt _ (sum_sq_nonneg dx dy)) as Hs.
  set (d := sqrt (dx ^ 2 + dy ^ 2)) in *.
  replace ((dx / d) ^ 2 + (dy / d) ^ 2) with ((dx ^ 2 + dy ^ 2) / (d * d))
    by (field; lra).
  rewrite Hs. field. nra.
Qed.

(** The velocity sum of the two balls is the same before and after
    [collide_with], whatever the restitution coefficient and the distance. *)
Lemma collide_with_e_momentum (e : R) (a b : Ball) :
  vx (fst (fst (collide_with_e e a b))) + vx (snd (fst (collide_with_e e a b)))
    = vx a + vx b /\
  vy (fst (fst (collide_with_e e a b))) + vy (snd (fst (collide_with_e e a b)))
    = vy a + vy b.
Proof.
  unfold collide_with_e.
  destruct (ltb _ _); [| ball_simpl; split; reflexivity].
  destruct (gtb _ _); ball_simpl; split; ring.
Qed.

(** When the velocity response is applied, the energy of the normal
    components changes by [2 e (1 + e) dot_product ^ 2]. *)
Lemma collide_with_e_normal_energy (e : R) (a b : Ball) :
  0 < centre_distance a b < BALL_RADIUS * 2 ->
  let nx := (x b - x a) / centre_distance a b in
  let ny := (y b - y a) / centre_distance a b in
  let dot_product := (vx b - vx a) * nx + (vy b - vy a) * ny in
  normal_energy nx ny (fst (fst (collide_with_e e a b))) (snd (fst (collide_with_e e a b)))
  = normal_energy nx ny a b + 2 * e * (1 + e) * dot_product ^ 2.
Proof.
  intros [Hpos Hlt] nx ny dot_product.
  unfold centre_distance in *.
  pose proof (unit_normal _ _ Hpos) as Hn. fold nx ny in Hn.
  unfold collide_with_e.
  rewrite (proj2 (ltb_true _ _) Hlt).
  rewrite (proj2 (gtb_true _ _) Hpos).
  unfold normal_energy. ball_simpl. fold nx ny. fold dot_product.
  set (J := (1 + e) * dot_product).
  replace ((vx a + J * nx) * nx + (vy a + J * ny) * ny)
    with ((vx a * nx + vy a * ny) + J * (nx ^ 2 + ny ^ 2)) by ring.
  replace ((vx b - J * nx) * nx + (vy b - J * ny) * ny)
    with ((vx b * nx + vy b * ny) - J * (nx ^ 2 + ny ^ 2)) by ring.
  rewrite Hn. unfold J, dot_product. ring.
Qed.

(** With a positive restitution coefficient (the program's is 0.6) every
    applied velocity response with a nonzero normal relative velocity
    strictly increases the energy of the normal components. *)
Lemma collide_with_e_energy_grows (e : R) (a b : Ball) :
  0 < e ->
  0 < centre_distance a b < BALL_RADIUS * 2 ->
  let nx := (x b - x a) / centre_distance a b in
  let ny := (y b - y a) / centre_distance a b in
  (vx b - vx a) * nx + (vy b - vy a) * ny <> 0 ->
  normal_energy nx ny a b
  < normal_energy nx ny (fst (fst (collide_with_e e a b)))
                        (snd (fst (collide_with_e e a b))).
Proof.
  intros He Hd nx ny Hdot.
  pose proof (collide_with_e_normal_energy e a b Hd) as H.
  cbv zeta in H. fold nx ny in H. rewrite H.
  set (dp := (vx b - vx a) * nx + (vy b - vy a) * ny) in *.
  assert (0 < dp ^ 2) by nra.
  assert (0 < 2 * e * (1 + e)) by nra.
  nra.
Qed.

(** C2 (the code at a concrete pair): [striker] hits the resting [sitter]
    head-on along the x axis at distance 24.  [collide_with] pushes them
    apart to distance 30 and turns the velocities (5, 0) and (0, 0) into
    (-3, 0) and (8, 0): the velocity sum (5, 0) is kept, and the energy of the
    normal components, [normal_energy], grows from 25 to 73 although
    [RESTITUTION] is 0.6 < 1. *)
Theorem C2_collision_gains_normal_energy :
  centre_distance striker sitter = 24 /\
  collide_with striker sitter =
    ({| x := 97; y := 100; vx := -3; vy := 0;
        color := PLAYER_BALL_COLOR; is_target := false; moving := true |},
     {| x := 127; y := 100; vx := 8; vy := 0;
        color := PLAYER_BALL_COLOR; is_target := false; moving := true |},
     true) /\
  normal_energy 1 0 striker sitter = 25 /\
  normal_energy 1 0 (fst (fst (collide_with striker sitter)))
                    (snd (fst (collide_with striker sitter))) = 73.
Proof.
  assert (Hd : sqrt ((124 - 100) ^ 2 + (100 - 100) ^ 2) = 24)
    by (apply sqrt_of_square; lra).
  assert (Hc : collide_with striker sitter =
    ({| x := 97; y := 100; vx := -3; vy := 0;
        color := PLAYER_BALL_COLOR; is_target := false; moving := true |},
     {| x := 127; y := 100; vx := 8; vy := 0;
        color := PLAYER_BALL_COLOR; is_target := false; moving := true |},
     true)).
  { unfold collide_with, collide_with_e, striker, sitter, Ball_init.
    ball_simpl. rewrite Hd.
    unfold BALL_RADIUS, RESTITUTION. decide_ltb. ball_simpl.
    collision_eq. }
  split; [exact Hd |].
  split; [exact Hc |].
  rewrite Hc. unfold normal_energy, striker, sitter, Ball_init. ball_simpl.
  split; ring.
Qed.

(** ** Arithmetic faults *)

Lemma py_sqrt_nonneg (a : R) : 0 <= a -> py_sqrt a = inr (sqrt a).
Proof. intros H. unfold py_sqrt. now rewrite (proj2 (ltb_false a 0) H). Qed.

Lemma py_sqrt_sum_sq (a b : R) : py_sqrt (a ^ 2 + b ^ 2) = inr (sqrt (a ^ 2 + b ^ 2)).
Proof. apply py_sqrt_nonneg, sum_sq_nonneg. Qed.

Lemma py_div_pos (a d : R) : 0 < d -> py_div a d = inr (a / d).
Proof.
  intros H. unfold py_div. destruct (Req_dec_T d 0); [lra | reflexivity].
Qed.

Lemma py_pow2_cases (a : R) :
  py_pow2 a = inr (a ^ 2) \/ py_pow2 a = inl OverflowError.
Proof. unfold py_pow2. destruct (ltb _ _); [left | right]; reflexivity. Qed.

Lemma py_pow2_in_range (a : R) : a ^ 2 < FLOAT_OVERFLOW -> py_pow2 a = inr (a ^ 2).
Proof. intros H. unfold py_pow2. now rewrite (proj2 (ltb_true _ _) H). Qed.

Lemma py_pow2_overflow (a : R) : FLOAT_OVERFLOW <= a ^ 2 -> py_pow2 a = inl OverflowError.
Proof. intros H. unfold py_pow2. now rewrite (proj2 (ltb_false _ _) H). Qed.

(** Case analysis on one [** 2] of the source: the square is returned, or
    the whole method raises [OverflowError]. *)
Ltac pow2_cases a :=
  destruct (py_pow2_cases a) as [-> | ->];
  [cbn [bind] | right; reflexivity].

Lemma Checked_update_cases (b : Ball) :
  returns_or_overflows (Checked.update b) (update b).
Proof.
  unfold returns_or_overflows, Checked.update, update.
  destruct (moving b); [| left; reflexivity].
  destruct (bounce _ _ SCREEN_WIDTH) as [x2 vx2].
  destruct (bounce _ _ BOARD_HEIGHT) as [y2 vy2].
  pow2_cases (vx2 * FRICTION). pow2_cases (vy2 * FRICTION).
  rewrite py_sqrt_sum_sq. cbn [bind]. left.
  destruct (ltb _ _); reflexivity.
Qed.

Lemma Checked_update_in_range (b : Ball) :
  vx b ^ 2 < FLOAT_OVERFLOW -> vy b ^ 2 < FLOAT_OVERFLOW ->
  Checked.update b = inr (update b).
Proof.
  intros Hx Hy. unfold Checked.update, update.
  destruct (moving b); [| reflexivity].
  pose proof (bounce_sq (x b + vx b) (vx b) SCREEN_WIDTH) as Bx.
  pose proof (bounce_sq (y b + vy b) (vy b) BOARD_HEIGHT) as By.
  destruct (bounce _ _ SCREEN_WIDTH) as [x2 vx2].
  destruct (bounce _ _ BOARD_HEIGHT) as [y2 vy2].
  cbn [snd] in Bx, By.
  rewrite !py_pow2_in_range by (unfold FRICTION; nra).
  cbn [bind]. rewrite py_sqrt_sum_sq. cbn [bind].
  destruct (ltb _ _); reflexivity.
Qed.

Lemma Checked_move_towards_speed_cases (b : Ball) (tx ty s : R) :
  returns_or_overflows (Checked.move_towards_speed b tx ty s)
                       (move_towards_speed b tx ty s).
Proof.
  unfold returns_or_overflows, Checked.move_towards_speed, move_towards_speed.
  pow2_cases (tx - x b). pow2_cases (ty - y b).
  rewrite py_sqrt_sum_sq. cbn [bind]. left.
  destruct (gtb _ _) eqn:E; [| reflexivity].
  apply gtb_true in E.
  rewrite !(py_div_pos _ _ E). reflexivity.
Qed.

Lemma Checked_collide_with_e_cases (e : R) (a b : Ball) :
  returns_or_overflows (Checked.collide_with_e e a b) (collide_with_e e a b).
Proof.
  unfold returns_or_overflows, Checked.collide_with_e, collide_with_e.
  pow2_cases (x b - x a). pow2_cases (y b - y a).
  rewrite py_sqrt_sum_sq. cbn [bind]. left.
  destruct (ltb _ _); [| reflexivity].
  destruct (gtb _ _) eqn:E; [| reflexivity].
  apply gtb_true in E.
  rewrite !(py_div_pos _ _ E). reflexivity.
Qed.

Lemma heron_guard (s a b c : R) :
  (gtb s 0 && gtb s a && gtb s b && gtb s c)%bool = true ->
  0 < s * (s - a) * (s - b) * (s - c).
Proof.
  rewrite !andb_true_iff, !gtb_true. intros [[[H0 Ha] Hb] Hc].
  repeat apply Rmult_lt_0_compat; lra.
Qed.

Lemma Checked_side_cases (p q : Point) :
  returns_or_overflows (Checked.side p q)
                       (sqrt ((fst q - fst p) ^ 2 + (snd q - snd p) ^ 2)).
Proof.
  unfold returns_or_overflows, Checked.side.
  pow2_cases (fst q - fst p). pow2_cases (snd q - snd p).
  left. apply py_sqrt_sum_sq.
Qed.

Lemma Checked_heron_cases (p1 p2 p3 : Point) :
  returns_or_overflows (Checked.heron p1 p2 p3) (heron p1 p2 p3).
Proof.
  unfold returns_or_overflows, Checked.heron, heron.
  destruct (Checked_side_cases p1 p2) as [-> | ->]; [cbn [bind] | now right].
  destruct (Checked_side_cases p2 p3) as [-> | ->]; [cbn [bind] | now right].
  destruct (Checked_side_cases p3 p1) as [-> | ->]; [cbn [bind] | now right].
  left. destruct (_ && _)%bool eqn:G; [| reflexivity].
  apply heron_guard in G.
  rewrite py_sqrt_nonneg by lra. reflexivity.
Qed.

Lemma Checked_calculate_triangle_area_cases (self : Game) :
  returns_or_overflows (Checked.calculate_triangle_area self)
                       (calculate_triangle_area self).
Proof.
  unfold returns_or_overflows, Checked.calculate_triangle_area,
         calculate_triangle_area.
  destruct (player_balls self) as [| b0 [| b1 rest]]; try (left; reflexivity).
  cbn [length Nat.ltb Nat.leb py_index nth_error bind ret].
  destruct (Checked_heron_cases (x (target_ball self), y (target_ball self))
                                (x b0, y b0) (x b1, y b1)) as [-> | ->];
    [cbn [bind] | now right].
  left. destruct (heron _ _ _) as [area [t |]]; reflexivity.
Qed.

Lemma Checked_overlaps_cases (pos : Z * Z) (ball : Ball) :
  returns_or_overflows (Checked.overlaps pos ball) (overlaps pos ball).
Proof.
  unfold returns_or_overflows, Checked.overlaps, overlaps.
  pow2_cases (fst pos - x ball). pow2_cases (snd pos - y ball).
  rewrite py_sqrt_sum_sq. left. reflexivity.
Qed.

Lemma Checked_can_place_fold (pos : Z * Z) (l : list Ball) (acc : Exc bool) (cp : bool) :
  returns_or_overflows acc cp ->
  returns_or_overflows
    (fold_left (fun acc ball =>
                  c <- acc ;;
                  o' <- Checked.overlaps pos ball ;;
                  ret (if o' then false else c)) l acc)
    (fold_left (fun c ball => if overlaps pos ball then false else c) l cp).
Proof.
  revert acc cp. induction l as [| ball rest IH]; intros acc cp H; [exact H |].
  cbn [fold_left]. apply IH.
  destruct H as [-> | ->]; [cbn [bind] | now right].
  destruct (Checked_overlaps_cases pos ball) as [-> | ->]; [now left | now right].
Qed.

Lemma Checked_can_place_cases (self : Game) (pos : Z * Z) :
  returns_or_overflows (Checked.can_place self pos) (can_place self pos).
Proof.
  unfold Checked.can_place, can_place.
  destruct (Checked_overlaps_cases pos (target_ball self)) as [-> | ->];
    cbn [bind].
  - apply Checked_can_place_fold. now left.
  - right. reflexivity.
Qed.

Lemma collide_with_e_coincident (e : R) (a b : Ball) :
  x a = x b -> y a = y b -> collide_with_e e a b = (a, b, true).
Proof.
  intros Hx Hy. unfold collide_with_e.
  assert (Hd : sqrt ((x b - x a) ^ 2 + (y b - y a) ^ 2) = 0)
    by (apply sqrt_sum_sq_zero; lra).
  rewrite Hd. unfold BALL_RADIUS. decide_ltb. reflexivity.
Qed.

Lemma move_towards_speed_coincident (b : Ball) (s : R) :
  move_towards_speed b (x b) (y b) s = b.
Proof.
  unfold move_towards_speed.
  assert (Hd : sqrt ((x b - x b) ^ 2 + (y b - y b) ^ 2) = 0)
    by (apply sqrt_sum_sq_zero; lra).
  rewrite Hd. decide_ltb. reflexivity.
Qed.

(** *** A velocity whose square is out of range *)

Lemma runaway_square_Z : (2 ^ 1024 - 2 ^ 970 <= 39204 * (10 ^ 152 * 10 ^ 152))%Z.
Proof. vm_compute. discriminate. Qed.

Lemma float_overflow_Z : (25 < 2 ^ 1024 - 2 ^ 970)%Z.
Proof. vm_compute. reflexivity. Qed.

Lemma FLOAT_OVERFLOW_above_25 : 25 < FLOAT_OVERFLOW.
Proof.
  pose proof (IZR_lt _ _ float_overflow_Z) as H.
  rewrite minus_IZR in H.
  change 1024%Z with (Z.of_nat 1024) in H.
  change 970%Z with (Z.of_nat 970) in H.
  rewrite <- !pow_IZR in H. exact H.
Qed.

Lemma runaway_square :
  FLOAT_OVERFLOW <= (- (25 * 10 ^ 153) * WALL_RESTITUTION * FRICTION) ^ 2.
Proof.
  pose proof (IZR_le _ _ runaway_square_Z) as H.
  rewrite minus_IZR, !mult_IZR in H.
  change 1024%Z with (Z.of_nat 1024) in H.
  change 970%Z with (Z.of_nat 970) in H.
  change 152%Z with (Z.of_nat 152) in H.
  rewrite <- !pow_IZR in H.
  unfold FLOAT_OVERFLOW, WALL_RESTITUTION, FRICTION.
  change (10 ^ 153) with (10 * 10 ^ 152).
  revert H. generalize (10 ^ 152) (2 ^ 1024) (2 ^ 970). intros t p q H.
  replace ((- (25 * (10 * t)) * (8 / 10) * (99 / 100)) ^ 2)
    with (39204 * (t * t)) by field.
  exact H.
Qed.

Lemma Checked_update_runaway : Checked.update runaway = inl OverflowError.
Proof.
  assert (Ht : 100 <= 10 ^ 153).
  { assert (H : 1 <= 10 ^ 151) by (apply pow_R1_Rle; lra).
    change (10 ^ 153) with (10 * (10 * 10 ^ 151)).
    revert H. generalize (10 ^ 151). intros; lra. }
  unfold Checked.update, runaway. cbn [moving x y vx vy].
  rewrite bounce_far
    by (unfold BALL_RADIUS, SCREEN_WIDTH; revert Ht;
        generalize (10 ^ 153); intros; lra).
  rewrite bounce_inside by (unfold BALL_RADIUS, BOARD_HEIGHT; lra).
  rewrite (py_pow2_overflow _ runaway_square). reflexivity.
Qed.

Lemma Checked_update_striker : Checked.update striker = inr (update striker).
Proof.
  pose proof FLOAT_OVERFLOW_above_25 as H.
  apply Checked_update_in_range; unfold striker; cbn [vx vy]; lra.
Qed.

(** C3 on the code: [OverflowError] is the one fault a core operation can
    hit, and it does.  [Ball.update] on [runaway], a ball moving at 2.5e154
    units per tick, raises [OverflowError] at [self.vx**2] (after the wall
    bounce and friction the component is 1.98e154 and its square exceeds the
    float range).  Apart from that no method faults: written with Python's
    faulting division, square root, power and subscript, each method either
    returns the value of the fault-free definition or raises
    [OverflowError], never [ZeroDivisionError], [ValueError] or
    [IndexError], and [update] returns normally whenever the squares of both
    velocity components are in range (as for [striker]).  The degenerate
    cases are as the claim says: two balls with coincident centres are left
    as they are by [collide_with], which still reports a collision;
    [move_towards] to the ball's own position leaves the ball as it is; and
    Heron's square root is taken only under the guard
    [s > 0 and s > a and s > b and s > c], where its argument is positive,
    the area being 0 (and nothing stored) otherwise. *)
Theorem C3_overflow_is_the_only_fault :
  Checked.update runaway = inl OverflowError /\
  Checked.update striker = inr (update striker) /\
  (forall b, returns_or_overflows (Checked.update b) (update b)) /\
  (forall b, vx b ^ 2 < FLOAT_OVERFLOW -> vy b ^ 2 < FLOAT_OVERFLOW ->
     Checked.update b = inr (update b)) /\
  (forall b tx ty s,
     returns_or_overflows (Checked.move_towards_speed b tx ty s)
                          (move_towards_speed b tx ty s)) /\
  (forall e a b,
     returns_or_overflows (Checked.collide_with_e e a b) (collide_with_e e a b)) /\
  (forall self,
     returns_or_overflows (Checked.calculate_triangle_area self)
                          (calculate_triangle_area self)) /\
  (forall self pos,
     returns_or_overflows (Checked.can_place self pos) (can_place self pos)) /\
  (forall e a b, x a = x b -> y a = y b -> collide_with_e e a b = (a, b, true)) /\
  (forall b s, move_towards_speed b (x b) (y b) s = b) /\
  (forall p1 p2 p3,
     let a := sqrt ((fst p2 - fst p1) ^ 2 + (snd p2 - snd p1) ^ 2) in
     let b := sqrt ((fst p3 - fst p2) ^ 2 + (snd p3 - snd p2) ^ 2) in
     let c := sqrt ((fst p1 - fst p3) ^ 2 + (snd p1 - snd p3) ^ 2) in
     let s := (a + b + c) / 2 in
     (s > 0 /\ s > a /\ s > b /\ s > c ->
      0 < s * (s - a) * (s - b) * (s - c) /\
      fst (heron p1 p2 p3) = sqrt (s * (s - a) * (s - b) * (s - c))) /\
     (~ (s > 0 /\ s > a /\ s > b /\ s > c) -> heron p1 p2 p3 = (0, None))).
Proof.
  split; [exact Checked_update_runaway |].
  split; [exact Checked_update_striker |].
  split; [exact Checked_update_cases |].
  split; [exact Checked_update_in_range |].
  split; [exact Checked_move_towards_speed_cases |].
  split; [exact Checked_collide_with_e_cases |].
  split; [exact Checked_calculate_triangle_area_cases |].
  split; [exact Checked_can_place_cases |].
  split; [exact collide_with_e_coincident |].
  split; [exact move_towards_speed_coincident |].
  intros p1 p2 p3 a b c s. split.
  - intros (H0 & Ha & Hb & Hc).
    assert (G : (gtb s 0 && gtb s a && gtb s b && gtb s c)%bool = true).
    { rewrite !andb_true_iff, !gtb_true. repeat split; lra. }
    split; [now apply heron_guard |].
    unfold heron. fold a b c. fold s. now rewrite G.
  - intros Hn. unfold heron. fold a b c. fold s.
    destruct (_ && _)%bool eqn:G; [| reflexivity].
    exfalso. apply Hn.
    rewrite !andb_true_iff, !gtb_true in G. repeat split; lra.
Qed.

(** ** Placement *)

Lemma overlaps_false (pos : Z * Z) (ball : Ball) :
  overlaps pos ball = false <-> BALL_RADIUS * 2 <= distance_to pos ball.
Proof. unfold overlaps, distance_to. apply ltb_false. Qed.

Lemma can_place_fold_true (pos : Z * Z) (l : list Ball) (cp : bool) :
  fold_left (fun c ball => if overlaps pos ball then false else c) l cp = true
  <-> cp = true /\ Forall (fun ball => overlaps pos ball = false) l.
Proof.
  revert cp. induction l as [| ball rest IH]; intros cp; cbn [fold_left].
  - split; [intros H; split; [exact H | constructor] | intros [H _]; exact H].
  - rewrite IH. split.
    + intros [H1 H2]. destruct (overlaps pos ball) eqn:E; [discriminate |].
      split; [exact H1 | constructor; auto].
    + intros [H1 H2]. inversion H2 as [| ? ? Hb Hr].
      rewrite Hb. split; assumption.
Qed.

Lemma can_place_true (self : Game) (pos : Z * Z) :
  can_place self pos = true
  <-> BALL_RADIUS * 2 <= distance_to pos (target_ball self) /\
      Forall (fun ball => BALL_RADIUS * 2 <= distance_to pos ball) (player_balls self).
Proof.
  unfold can_place. rewrite can_place_fold_true.
  rewrite <- overlaps_false.
  assert (HF : Forall (fun ball => overlaps pos ball = false) (player_balls self)
               <-> Forall (fun ball => BALL_RADIUS * 2 <= distance_to pos ball)
                          (player_balls self)).
  { rewrite !Forall_forall. split; intros H b Hb; apply overlaps_false, H, Hb. }
  rewrite HF.
  destruct (overlaps pos (target_ball self)); split; intros [H1 H2];
    split; auto; discriminate.
Qed.

Lemma placement_guard_test (self : Game) (pos : Z * Z) :
  placement_guard self pos
  <-> (accepting_placement self && (snd pos <=? BOARD_HEIGHT)%Z
       && can_place self pos)%bool = true.
Proof.
  unfold placement_guard.
  rewrite !andb_true_iff, can_place_true, Z.leb_le.
  split.
  - intros (Ha & Hb & Hc & Hd). repeat split; auto.
  - intros [[Ha Hb] [Hc Hd]]. repeat split; auto.
Qed.

Lemma placement_guard_conditions (self : Game) (pos : Z * Z) :
  (0 <= snd pos)%Z ->
  placement_guard self pos <-> placement_conditions self pos.
Proof.
  intros Hy. unfold placement_guard, placement_conditions.
  split; intros (Ha & Hb & Hc & Hd); repeat split; auto; lia.
Qed.

Lemma on_mouse_button_down_guard (pos : Z * Z) (self : Game) :
  on_mouse_button_down 1 pos self
  = if (accepting_placement self && (snd pos <=? BOARD_HEIGHT)%Z
        && can_place self pos)%bool
    then placed self pos else self.
Proof.
  unfold on_mouse_button_down, accepting_placement, placed.
  change (1 =? 1)%Z with true. cbn [andb].
  destruct (all_stopped self); cbn [andb]; [| reflexivity].
  destruct (0 <? balls_left self)%Z; cbn [andb]; [| reflexivity].
  destruct (negb (game_over self)); cbn [andb]; [| reflexivity].
  destruct (snd pos <=? BOARD_HEIGHT)%Z; cbn [andb]; [| reflexivity].
  destruct (can_place self pos); reflexivity.
Qed.

Lemma placed_neq (self : Game) (pos : Z * Z) : placed self pos <> self.
Proof.
  intros H. apply (f_equal balls_left) in H. unfold placed in H. simpl in H. lia.
Qed.

(** The initial game with the target at (100, 295) and a click 5 units
    above the top edge of the window, 300 units from the target. *)
Lemma click_above_board :
  on_mouse_button_down 1 (100, -5)%Z (Game_init 100 295)
  = placed (Game_init 100 295) (100, -5)%Z.
Proof.
  rewrite on_mouse_button_down_guard.
  assert (G : placement_guard (Game_init 100 295) (100, -5)%Z).
  { unfold placement_guard.
    split; [reflexivity |].
    split; [unfold BOARD_HEIGHT; simpl; lia |].
    split; [| constructor].
    unfold distance_to, Game_init, Ball_init, BALL_RADIUS.
    cbn [fst snd x y target_ball].
    rewrite (sqrt_of_square _ 300) by lra. lra. }
  apply placement_guard_test in G. now rewrite G.
Qed.

(** C4 as stated fails above the board: in the initial game with the target
    at (100, 295) a left click at (100, -5), outside the board's vertical
    extent, is accepted; a resting ball is appended at (100, -5) and
    [balls_left] goes from 2 to 1.  So acceptance is not equivalent to the
    stated conditions. *)
Lemma C4_click_above_board_is_accepted :
  let self := Game_init 100 295 in
  let pos := (100, -5)%Z in
  let self' := on_mouse_button_down 1 pos self in
  ~ placement_conditions self pos /\
  self' <> self /\
  player_balls self' = [Ball_init 100 (-5) PLAYER_BALL_COLOR false] /\
  balls_left self = 2%Z /\ balls_left self' = 1%Z /\
  ~ (forall (g : Game) (p : Z * Z),
       on_mouse_button_down 1 p g <> g <-> placement_conditions g p).
Proof.
  intros self pos self'.
  assert (Hn : ~ placement_conditions self pos).
  { intros (_ & Hy & _). subst pos. cbn [snd] in Hy. lia. }
  assert (Hd : self' <> self).
  { subst self' self pos. rewrite click_above_board. apply placed_neq. }
  split; [exact Hn |].
  split; [exact Hd |].
  split; [subst self' self pos; rewrite click_above_board; reflexivity |].
  split; [reflexivity |].
  split; [subst self' self pos; rewrite click_above_board; reflexivity |].
  intros H. apply Hn, (H self pos), Hd.
Qed.

(** C4, amended: a left click at [pos] places a ball if and only if the
    round is accepting a placement, [snd pos <= BOARD_HEIGHT] (no lower bound
    is tested), and the distance of [pos] to the target and to every player
    ball is at least two radii.  An accepted placement appends exactly one
    resting ball at [pos], decrements [balls_left] (and sets [placing_ball]);
    a rejected one, and any other mouse button, leaves the whole game state
    unchanged.  For [0 <= snd pos] the tested conditions are the stated
    ones. *)
Theorem C4_placement_accepted_iff (self : Game) (pos : Z * Z) :
  let self' := on_mouse_button_down 1 pos self in
  (self' <> self <-> placement_guard self pos) /\
  (placement_guard self pos ->
     self' = placed self pos /\
     player_balls self' =
       player_balls self ++ [Ball_init (fst pos) (snd pos) PLAYER_BALL_COLOR false] /\
     balls_left self' = (balls_left self - 1)%Z) /\
  (~ placement_guard self pos -> self' = self) /\
  (forall button, button <> 1%Z -> on_mouse_button_down button pos self = self) /\
  ((0 <= snd pos)%Z -> (placement_guard self pos <-> placement_conditions self pos)).
Proof.
  intros self'. subst self'.
  rewrite on_mouse_button_down_guard.
  pose proof (placement_guard_test self pos) as Hg.
  assert (Hother : forall button, button <> 1%Z ->
                     on_mouse_button_down button pos self = self).
  { intros button Hb. unfold on_mouse_button_down.
    apply Z.eqb_neq in Hb. now rewrite Hb. }
  pose proof (placement_guard_conditions self pos) as Hw.
  destruct (_ && _ && _)%bool eqn:G.
  - assert (Hc : placement_guard self pos) by now apply Hg.
    split; [split; [intros _; exact Hc | intros _; apply placed_neq] |].
    split; [intros _; repeat split; reflexivity |].
    split; [intros Hn; contradiction |].
    split; [exact Hother | exact Hw].
  - assert (Hc : ~ placement_guard self pos).
    { intros H. apply Hg in H. discriminate. }
    split; [split; [intros H; now contradiction H | intros H; contradiction] |].
    split; [intros H; contradiction |].
    split; [intros _; reflexivity |].
    split; [exact Hother | exact Hw].
Qed.

(** ** The best score *)

Lemma put_ball_best_score (self : Game) (r : Ref) (b : Ball) :
  best_score (put_ball self r b) = best_score self.
Proof. destruct r; reflexivity. Qed.

Lemma exec_call_best_score (self : Game) (c : Call) :
  best_score (exec_call self c) = best_score self.
Proof.
  destruct c as [r | r1 r2]; simpl.
  - destruct (get_ball self r); [apply put_ball_best_score | reflexivity].
  - destruct (get_ball self r1); [| reflexivity].
    destruct (get_ball self r2); [| reflexivity].
    destruct (collide_with _ _) as [[a' b'] hit].
    now rewrite !put_ball_best_score.
Qed.

Lemma update_balls_best_score (self : Game) :
  best_score (update_balls self) = best_score self.
Proof.
  unfold update_balls.
  generalize (update_balls_calls (length (player_balls self))).
  intros calls. revert self.
  induction calls as [| c cs IH]; intros self; simpl; [reflexivity |].
  now rewrite IH, exec_call_best_score.
Qed.

Lemma calculate_triangle_area_best_score (self : Game) :
  best_score (snd (calculate_triangle_area self)) = best_score self.
Proof.
  unfold calculate_triangle_area.
  destruct (player_balls self) as [| b0 [| b1 rest]]; try reflexivity.
  destruct (heron _ _ _) as [area [t |]]; reflexivity.
Qed.

Lemma gtb_max (best current : R) :
  (if gtb current best then current else best) = Rmax best current.
Proof.
  unfold Rmax. destruct (Rle_dec best current) as [H | H].
  - destruct (gtb current best) eqn:E; [reflexivity |].
    apply gtb_false in E. lra.
  - destruct (gtb current best) eqn:E; [| reflexivity].
    apply gtb_true in E. lra.
Qed.

Lemma tick_best_score (self : Game) :
  best_score (tick self)
  = if finishes self then Rmax (best_score self) (current_score (tick self))
    else best_score self.
Proof.
  unfold finishes, tick.
  destruct (negb (all_balls_stopped self)); cbn [andb]; [| reflexivity].
  destruct (all_stopped (update_balls self) && _)%bool.
  - pose proof (calculate_triangle_area_best_score (update_balls self)) as Hb.
    destruct (calculate_triangle_area (update_balls self)) as [area self2].
    cbn [snd] in Hb. cbn [best_score current_score].
    now rewrite gtb_max, Hb, update_balls_best_score.
  - cbn [best_score]. apply update_balls_best_score.
Qed.

Lemma tick_game_over (self : Game) : finishes self = true -> game_over (tick self) = true.
Proof.
  unfold finishes, tick.
  destruct (negb (all_balls_stopped self)); cbn [andb]; [| discriminate].
  intros ->. destruct (calculate_triangle_area _). reflexivity.
Qed.

Lemma tick_best_score_le (self : Game) : best_score self <= best_score (tick self).
Proof.
  rewrite tick_best_score. destruct (finishes self); [apply Rmax_l | lra].
Qed.

Lemma handle_event_best_score (env : Env) (ev : Event) (st : Game * bool) :
  best_score (fst (handle_event env ev st)) = best_score (fst st).
Proof.
  destruct st as [self running].
  destruct ev as [| [| |] | button | button | |]; cbn [handle_event fst];
    try reflexivity.
  - unfold on_mouse_button_down.
    destruct (_ && _)%bool; [| reflexivity].
    destruct (_ <=? _)%Z; [| reflexivity].
    destruct (can_place _ _); reflexivity.
  - unfold on_mouse_button_up.
    destruct (_ && _)%bool; [| reflexivity].
    destruct (rev _); reflexivity.
  - unfold on_mouse_motion.
    destruct (_ && _)%bool; [| reflexivity].
    destruct (can_place _ _); reflexivity.
Qed.

Lemma frame_best_score_le (events : list (Env * Event)) (self : Game) :
  best_score self <= best_score (fst (frame events self)).
Proof.
  unfold frame.
  assert (H : forall st,
             best_score (fst (fold_left (fun st ee => handle_event (fst ee) (snd ee) st)
                                        events st)) = best_score (fst st)).
  { induction events as [| ee es IH]; intros st; cbn [fold_left]; [reflexivity |].
    now rewrite IH, handle_event_best_score. }
  specialize (H (self, true)).
  destruct (fold_left _ events (self, true)) as [self1 running].
  cbn [fst] in *. rewrite <- H. apply tick_best_score_le.
Qed.

Lemma run_best_score_le (frames : list (list (Env * Event))) (self : Game) :
  best_score self <= best_score (run frames self).
Proof.
  revert self. induction frames as [| events rest IH]; intros self; cbn [run]; [lra |].
  pose proof (frame_best_score_le events self) as H.
  destruct (frame events self) as [self1 running]. cbn [fst] in H.
  destruct running; [specialize (IH self1) |]; lra.
Qed.

Lemma run_app (frames1 frames2 : list (list (Env * Event))) (self : Game) :
  run (frames1 ++ frames2) self = run frames1 self \/
  run (frames1 ++ frames2) self = run frames2 (run frames1 self).
Proof.
  revert self. induction frames1 as [| events rest IH]; intros self.
  - right. reflexivity.
  - cbn [app run]. destruct (frame events self) as [self1 running].
    destruct running; [apply IH | left; reflexivity].
Qed.

(** C6: the best score never decreases.  [reset_game] re-initialises the
    target, the player balls, [balls_left] and the current score and keeps
    [best_score]; no event handler changes [best_score]; the per-frame update
    changes it only in the frame in which the round finishes (and
    [game_over] is set), to the maximum of the old best and the new current
    score; so along every run of the main
    loop, from any state and with any events and resets, the best score at a
    later frame is at least the best score at an earlier frame. *)
Theorem C6_best_score_never_decreases :
  (forall tx ty self,
     best_score (reset_game tx ty self) = best_score self /\
     target_ball (reset_game tx ty self) = Ball_init tx ty TARGET_BALL_COLOR true /\
     player_balls (reset_game tx ty self) = [] /\
     balls_left (reset_game tx ty self) = 2%Z /\
     current_score (reset_game tx ty self) = 0) /\
  (forall env ev st, best_score (fst (handle_event env ev st)) = best_score (fst st)) /\
  (forall self,
     best_score (tick self)
     = if finishes self then Rmax (best_score self) (current_score (tick self))
       else best_score self) /\
  (forall self, finishes self = true -> game_over (tick self) = true) /\
  (forall frames self, best_score self <= best_score (run frames self)) /\
  (forall frames1 frames2 self,
     best_score (run frames1 self) <= best_score (run (frames1 ++ frames2) self)).
Proof.
  split; [intros; repeat split |].
  split; [exact handle_event_best_score |].
  split; [exact tick_best_score |].
  split; [exact tick_game_over |].
  split; [exact run_best_score_le |].
  intros frames1 frames2 self.
  destruct (run_app frames1 frames2 self) as [-> | ->];
    [lra | apply run_best_score_le].
Qed.

(** ** The triangle area *)





(** ** The target position after a reset *)

(** C9 as stated fails: the point (15, 15) lies in the radius-sized margin
    range [15, 785] x [15, 585], yet no outcome of [reset_game] puts the
    target there. *)
Lemma C9_radius_margin_not_reached :
  ~ (forall (self : Game) (px py : Z),
       (BALL_RADIUS <= px <= SCREEN_WIDTH - BALL_RADIUS)%Z ->
       (BALL_RADIUS <= py <= BOARD_HEIGHT - BALL_RADIUS)%Z ->
       exists self', reset_game_outcome self self' /\
                     x (target_ball self') = px /\ y (target_ball self') = py).
Proof.
  intros H.
  destruct (H settled_game 15%Z 15%Z) as (self' & (tx & ty & [Hx Hy] & ->) & Ex & Ey).
  - unfold BALL_RADIUS, SCREEN_WIDTH. lia.
  - unfold BALL_RADIUS, BOARD_HEIGHT. lia.
  - cbn [reset_game target_ball Ball_init x] in Ex.
    apply eq_IZR in Ex. unfold randint_outcome, BALL_RADIUS in Hx. lia.
Qed.

(** C9, amended: after [reset_game] the target's coordinates are integers
    with [30 <= x <= 770] and [30 <= y <= 570], a margin of two radii (one
    diameter) from each wall of the board, for every outcome of the random
    draws; and every integer position in that range is a possible outcome. *)
Theorem C9_target_within_diameter_margin (self : Game) :
  (forall self', reset_game_outcome self self' ->
     exists tx ty : Z,
       x (target_ball self') = tx /\ y (target_ball self') = ty /\
       (BALL_RADIUS * 2 <= tx <= SCREEN_WIDTH - BALL_RADIUS * 2)%Z /\
       (BALL_RADIUS * 2 <= ty <= BOARD_HEIGHT - BALL_RADIUS * 2)%Z /\
       30 <= x (target_ball self') <= 770 /\
       30 <= y (target_ball self') <= 570) /\
  (forall tx ty : Z,
     (30 <= tx <= 770)%Z -> (30 <= ty <= 570)%Z ->
     exists self', reset_game_outcome self self' /\
                   x (target_ball self') = tx /\ y (target_ball self') = ty).
Proof.
  split.
  - intros self' (tx & ty & [Hx Hy] & ->).
    exists tx, ty. cbn [reset_game target_ball Ball_init x y].
    unfold randint_outcome in Hx, Hy.
    repeat split; try tauto.
    all: unfold BALL_RADIUS, SCREEN_WIDTH, BOARD_HEIGHT in Hx, Hy.
    all: try (apply IZR_le; lia).
  - intros tx ty Hx Hy.
    exists (reset_game tx ty self). split; [| split; reflexivity].
    exists tx, ty. split; [| reflexivity].
    unfold reset_game_draws, randint_outcome, BALL_RADIUS, SCREEN_WIDTH, BOARD_HEIGHT.
    lia.
Qed.

(** ** The calls made by [update_balls] *)

Lemma count_app (p : Call -> bool) (l1 l2 : list Call) :
  count p (l1 ++ l2) = (count p l1 + count p l2)%nat.
Proof. unfold count. now rewrite filter_app, length_app. Qed.

Lemma list_sum_cons (a : nat) (l : list nat) :
  list_sum (a :: l) = (a + list_sum l)%nat.
Proof. reflexivity. Qed.

Lemma count_flat_map (p : Call -> bool) (f : nat -> list Call) (l : list nat) :
  count p (flat_map f l) = list_sum (map (fun i => count p (f i)) l).
Proof.
  induction l as [| i l IH]; [reflexivity |].
  cbn [flat_map map]. now rewrite list_sum_cons, count_app, IH.
Qed.

Lemma list_sum_seq_single (g : nat -> nat) (k start len : nat) :
  (forall i, i <> k -> g i = 0%nat) ->
  list_sum (map g (seq start len))
  = if ((start <=? k) && (k <? start + len))%nat then g k else 0%nat.
Proof.
  intros Hg. revert start.
  induction len as [| len IH]; intros start.
  - cbn [seq map].
    destruct (Nat.leb_spec start k), (Nat.ltb_spec k (start + 0)); cbn [andb];
      try reflexivity; lia.
  - cbn [seq map]. rewrite list_sum_cons, IH.
    destruct (Nat.eq_dec start k) as [-> | Hne].
    + destruct (Nat.leb_spec (S k) k); [lia |]. cbn [andb].
      destruct (Nat.leb_spec k k); [| lia].
      destruct (Nat.ltb_spec k (k + S len)); [| lia]. cbn [andb]. lia.
    + rewrite (Hg start Hne).
      destruct (Nat.leb_spec (S start) k), (Nat.ltb_spec k (S start + len)),
               (Nat.leb_spec start k), (Nat.ltb_spec k (start + S len));
        cbn [andb]; try reflexivity; lia.
Qed.

Lemma count_inner_calls (p : Call -> bool) (n i : nat) :
  count p (inner_calls n i)
  = list_sum (map (fun j => if Nat.eqb i j then 0%nat
                            else if p (CallCollide (Player i) (Player j))
                                 then 1%nat else 0%nat)
                  (seq 0 n)).
Proof.
  unfold inner_calls. rewrite count_flat_map.
  f_equal. apply map_ext. intros j.
  destruct (Nat.eqb i j); [reflexivity |].
  unfold count. cbn [filter]. now destruct (p _).
Qed.

Lemma count_outer_calls (p : Call -> bool) (n i : nat) :
  count p (outer_calls n i)
  = ((if p (CallUpdate (Player i)) then 1 else 0)
     + (if p (CallCollide (Player i) Target) then 1 else 0)
     + count p (inner_calls n i))%nat.
Proof.
  unfold outer_calls, count. cbn [filter].
  destruct (p (CallUpdate (Player i))), (p (CallCollide (Player i) Target));
    cbn [length]; lia.
Qed.

Lemma count_update_balls_calls (p : Call -> bool) (n : nat) :
  count p (update_balls_calls n)
  = ((if p (CallUpdate Target) then 1 else 0)
     + list_sum (map (fun i => count p (outer_calls n i)) (seq 0 n)))%nat.
Proof.
  unfold update_balls_calls.
  change (CallUpdate Target :: flat_map (outer_calls n) (seq 0 n))
    with ([CallUpdate Target] ++ flat_map (outer_calls n) (seq 0 n)).
  rewrite count_app, count_flat_map.
  f_equal. unfold count. cbn [filter]. now destruct (p _).
Qed.

(** No call of the inner loop satisfies a predicate that rejects every
    collision between two player balls. *)
Lemma count_inner_calls_none (p : Call -> bool) (n i : nat) :
  (forall j, p (CallCollide (Player i) (Player j)) = false) ->
  count p (inner_calls n i) = 0%nat.
Proof.
  intros Hp. rewrite count_inner_calls.
  rewrite (list_sum_seq_single _ 0 0 n).
  - destruct (_ && _)%bool; [| reflexivity].
    destruct (Nat.eqb i 0); [reflexivity | now rewrite Hp].
  - intros j _. destruct (Nat.eqb i j); [reflexivity | now rewrite Hp].
Qed.

Lemma count_update_target (n : nat) :
  count (is_update Target) (update_balls_calls n) = 1%nat.
Proof.
  rewrite count_update_balls_calls. cbn [is_update Ref_eqb].
  rewrite (list_sum_seq_single _ 0 0 n).
  - rewrite count_outer_calls, count_inner_calls_none by reflexivity.
    cbn [is_update is_collide Ref_eqb]. destruct (_ && _)%bool; reflexivity.
  - intros i _. rewrite count_outer_calls, count_inner_calls_none by reflexivity.
    reflexivity.
Qed.

Lemma count_update_player (n k : nat) :
  (k < n)%nat -> count (is_update (Player k)) (update_balls_calls n) = 1%nat.
Proof.
  intros Hk. rewrite count_update_balls_calls. cbn [is_update Ref_eqb].
  rewrite (list_sum_seq_single _ k 0 n).
  - destruct (Nat.leb_spec 0 k); [| lia].
    destruct (Nat.ltb_spec k (0 + n)); [| lia]. cbn [andb].
    rewrite count_outer_calls, count_inner_calls_none by reflexivity.
    cbn [is_update is_collide Ref_eqb]. now rewrite Nat.eqb_refl.
  - intros i Hi. rewrite count_outer_calls, count_inner_calls_none by reflexivity.
    cbn [is_update is_collide Ref_eqb].
    apply Nat.eqb_neq in Hi. now rewrite Hi.
Qed.

Lemma count_collide_player_target (n k : nat) :
  (k < n)%nat ->
  count (is_collide (Player k) Target) (update_balls_calls n) = 1%nat.
Proof.
  intros Hk. rewrite count_update_balls_calls. cbn [is_collide].
  rewrite (list_sum_seq_single _ k 0 n).
  - destruct (Nat.leb_spec 0 k); [| lia].
    destruct (Nat.ltb_spec k (0 + n)); [| lia]. cbn [andb].
    rewrite count_outer_calls, count_inner_calls_none.
    + cbn [is_collide Ref_eqb]. now rewrite Nat.eqb_refl.
    + intros j. cbn [is_collide Ref_eqb]. apply andb_false_r.
  - intros i Hi. rewrite count_outer_calls, count_inner_calls_none.
    + cbn [is_collide Ref_eqb].
      apply Nat.eqb_neq in Hi. now rewrite Hi.
    + intros j. cbn [is_collide Ref_eqb]. apply andb_false_r.
Qed.

Lemma count_collide_target_player (n k : nat) :
  count (is_collide Target (Player k)) (update_balls_calls n) = 0%nat.
Proof.
  rewrite count_update_balls_calls. cbn [is_collide].
  rewrite (list_sum_seq_single _ 0 0 n).
  - rewrite count_outer_calls, count_inner_calls_none by reflexivity.
    cbn [is_collide Ref_eqb]. destruct (_ && _)%bool; reflexivity.
  - intros i _. rewrite count_outer_calls, count_inner_calls_none by reflexivity.
    reflexivity.
Qed.

Lemma count_inner_collide (n i k m : nat) :
  count (is_collide (Player k) (Player m)) (inner_calls n i)
  = if (Nat.eqb i k && negb (Nat.eqb k m) && (m <? n))%nat then 1%nat else 0%nat.
Proof.
  rewrite count_inner_calls. cbn [is_collide Ref_eqb].
  rewrite (list_sum_seq_single _ m 0 n).
  - rewrite Nat.eqb_refl, andb_true_r. cbn [Nat.leb andb]. rewrite Nat.add_0_l.
    destruct (Nat.eqb_spec i k) as [-> | Hik]; cbn [andb negb].
    + destruct (Nat.eqb k m); destruct (m <? n)%nat; reflexivity.
    + destruct (m <? n)%nat; destruct (Nat.eqb i m); reflexivity.
  - intros j Hj. apply Nat.eqb_neq in Hj. rewrite Hj, andb_false_r.
    now destruct (Nat.eqb i j).
Qed.

Lemma count_collide_players (n k m : nat) :
  (k < n)%nat -> (m < n)%nat ->
  count (is_collide (Player k) (Player m)) (update_balls_calls n)
  = if Nat.eqb k m then 0%nat else 1%nat.
Proof.
  intros Hk Hm. rewrite count_update_balls_calls. cbn [is_collide].
  rewrite (list_sum_seq_single _ k 0 n).
  - destruct (Nat.leb_spec 0 k); [| lia].
    destruct (Nat.ltb_spec k (0 + n)); [| lia]. cbn [andb].
    rewrite count_outer_calls, count_inner_collide.
    cbn [is_collide Ref_eqb]. rewrite Nat.eqb_refl, andb_false_r.
    destruct (Nat.ltb_spec m n); [| lia].
    destruct (Nat.eqb k m); reflexivity.
  - intros i Hi. rewrite count_outer_calls, count_inner_collide.
    cbn [is_collide Ref_eqb]. rewrite andb_false_r.
    apply Nat.eqb_neq in Hi. now rewrite Hi.
Qed.

Lemma count_orb_disjoint (p q : Call -> bool) (l : list Call) :
  (forall c, p c && q c = false) ->
  count (fun c => p c || q c) l = (count p l + count q l)%nat.
Proof.
  intros Hd. unfold count.
  induction l as [| c l IH]; [reflexivity |].
  cbn [filter]. specialize (Hd c).
  destruct (p c), (q c); cbn [orb length]; try discriminate; lia.
Qed.

Lemma is_collide_swap_disjoint (r1 r2 : Ref) (c : Call) :
  Ref_eqb r1 r2 = false -> is_collide r1 r2 c && is_collide r2 r1 c = false.
Proof.
  intros Hne. destruct c as [r | a b]; [reflexivity |].
  cbn [is_collide].
  destruct r1 as [| i], r2 as [| j], a as [| ia], b as [| ib];
    cbn [Ref_eqb andb] in *; try reflexivity; try discriminate;
    rewrite ?andb_false_r; try reflexivity.
  destruct (Nat.eqb_spec ia i) as [-> | ?]; [| reflexivity].
  destruct (Nat.eqb_spec ib j) as [-> | ?]; [| reflexivity].
  now rewrite Hne.
Qed.

Lemma seq_split (start len k : nat) :
  (start <= k < start + len)%nat ->
  seq start len = seq start (k - start) ++ k :: seq (S k) (start + len - S k).
Proof.
  intros Hk.
  replace len with ((k - start) + S (start + len - S k))%nat at 1 by lia.
  rewrite seq_app. cbn [seq].
  replace (start + (k - start))%nat with k by lia. reflexivity.
Qed.

Lemma outer_calls_split (n i j : nat) :
  (j < n)%nat -> i <> j ->
  exists l1 l2,
    outer_calls n i = l1 ++ CallCollide (Player i) (Player j) :: l2.
Proof.
  intros Hj Hij. unfold outer_calls, inner_calls.
  rewrite (seq_split 0 n j) by lia.
  rewrite flat_map_app. cbn [flat_map].
  apply Nat.eqb_neq in Hij. rewrite Hij. cbn [app].
  eexists (CallUpdate (Player i) :: CallCollide (Player i) Target :: _), _.
  reflexivity.
Qed.

(** For [i < j] the collision call of ball [i] on ball [j] is made before
    ball [j] is integrated. *)
Lemma collide_before_update (n i j : nat) :
  (i < j < n)%nat ->
  exists l1 l2 l3,
    update_balls_calls n
    = l1 ++ CallCollide (Player i) (Player j) :: l2 ++ CallUpdate (Player j) :: l3.
Proof.
  intros [Hij Hj].
  destruct (outer_calls_split n i j) as (a1 & a2 & Ha); [lia | lia |].
  unfold update_balls_calls.
  rewrite (seq_split 0 n i) by lia.
  rewrite (seq_split (S i) (0 + n - S i) j) by lia.
  rewrite !flat_map_app. cbn [flat_map]. rewrite !flat_map_app. cbn [flat_map].
  rewrite Ha.
  exists (CallUpdate Target :: flat_map (outer_calls n) (seq 0 (i - 0)) ++ a1).
  exists (a2 ++ flat_map (outer_calls n) (seq (S i) (j - S i))).
  eexists.
  unfold outer_calls at 3.
  cbn [app]. rewrite <- !app_assoc. cbn [app]. reflexivity.
Qed.

(** C1 as stated fails: with two player balls the resolver is applied to the
    unordered pair of player balls twice in one [update_balls], once as
    [player_balls[0].collide_with(player_balls[1])] and once the other way
    round. *)
Lemma C1_player_pair_resolved_twice :
  pair_applications (update_balls_calls 2) (Player 0) (Player 1) = 2%nat /\
  ~ (forall n i j : nat,
       (i < j < n)%nat ->
       pair_applications (update_balls_calls n) (Player i) (Player j) = 1%nat).
Proof.
  split; [reflexivity |].
  intros H. specialize (H 2%nat 0%nat 1%nat).
  assert (E : pair_applications (update_balls_calls 2) (Player 0) (Player 1) = 1%nat)
    by (apply H; lia).
  discriminate E.
Qed.

(** C1, amended: one [update_balls] with [n] player balls integrates the
    target first and every player ball exactly once; it applies the resolver
    exactly once to every pair of a player ball and the target (called on the
    player ball) and exactly once to every ordered pair of distinct player
    balls, hence twice to every unordered pair of player balls; and the
    integration is interleaved with the collisions: for [i < j] the call of
    ball [i] on ball [j] precedes the integration of ball [j]. *)
Theorem C1_update_balls_schedule (n : nat) :
  let calls := update_balls_calls n in
  (forall self, length (player_balls self) = n ->
     update_balls self = fold_left exec_call calls self) /\
  (exists rest, calls = CallUpdate Target :: rest) /\
  count (is_update Target) calls = 1%nat /\
  (forall i, (i < n)%nat ->
     count (is_update (Player i)) calls = 1%nat /\
     count (is_collide (Player i) Target) calls = 1%nat /\
     pair_applications calls (Player i) Target = 1%nat) /\
  (forall i j, (i < n)%nat -> (j < n)%nat -> i <> j ->
     count (is_collide (Player i) (Player j)) calls = 1%nat /\
     pair_applications calls (Player i) (Player j) = 2%nat) /\
  (forall i j, (i < j < n)%nat ->
     exists l1 l2 l3,
       calls = l1 ++ CallCollide (Player i) (Player j) :: l2
                  ++ CallUpdate (Player j) :: l3).
Proof.
  intros calls. subst calls.
  split; [intros self <-; reflexivity |].
  split; [eexists; reflexivity |].
  split; [apply count_update_target |].
  split; [| split].
  - intros i Hi.
    split; [now apply count_update_player |].
    split; [now apply count_collide_player_target |].
    unfold pair_applications.
    rewrite count_orb_disjoint
      by (intros c; now apply is_collide_swap_disjoint).
    rewrite count_collide_player_target, count_collide_target_player by exact Hi.
    reflexivity.
  - intros i j Hi Hj Hij.
    assert (E1 : Nat.eqb i j = false) by now apply Nat.eqb_neq.
    assert (E2 : Nat.eqb j i = false) by (apply Nat.eqb_neq; congruence).
    split; [rewrite count_collide_players, E1 by assumption; reflexivity |].
    unfold pair_applications.
    rewrite count_orb_disjoint
      by (intros c; now apply is_collide_swap_disjoint).
    rewrite !count_collide_players, E1, E2 by assumption. reflexivity.
  - apply collide_before_update.
Qed.

(** ** The first collision of a round, end to end *)

Lemma first_shot_placed :
  fold_left (fun st ee => handle_event (fst ee) (snd ee) st) first_shot
            (Game_init 146 300, true)
  = ({| best_score := 0;
        target_ball := Ball_init 146 300 TARGET_BALL_COLOR true;
        player_balls := [ {| x := 100; y := 300; vx := 22; vy := 0;
                             color := PLAYER_BALL_COLOR; is_target := false;
                             moving := true |} ];
        balls_left := 1;
        placing_ball := false;
        all_balls_stopped := false;
        game_over := false;
        current_score := 0;
        triangle := None;
        temp_ball := None |}, true).
Proof.
  unfold first_shot. cbn [fold_left fst snd handle_event mouse_pos].
  rewrite on_mouse_button_down_guard.
  assert (Hc : can_place (Game_init 146 300) (100, 300)%Z = true).
  { unfold can_place, overlaps, Game_init, Ball_init, BALL_RADIUS.
    cbn [fst snd x y target_ball player_balls fold_left].
    rewrite (sqrt_of_square _ 46) by lra. decide_ltb. reflexivity. }
  rewrite Hc.
  change (accepting_placement (Game_init 146 300)) with true.
  change (snd (100, 300)%Z <=? BOARD_HEIGHT)%Z with true.
  cbn [andb].
  unfold on_mouse_button_up, placed, Game_init.
  cbn [placing_ball player_balls target_ball balls_left best_score
       all_balls_stopped game_over current_score triangle temp_ball
       app rev length Nat.sub list_update fst snd].
  change (1 =? 1)%Z with true. cbn [andb].
  unfold move_towards, move_towards_speed, Ball_init, INITIAL_SPEED.
  ball_simpl.
  rewrite (sqrt_of_square _ 46) by lra. decide_ltb.
  do 3 f_equal. ball_eq.
Qed.

Lemma first_shot_update :
  update {| x := 100; y := 300; vx := 22; vy := 0;
            color := PLAYER_BALL_COLOR; is_target := false; moving := true |}
  = {| x := 122; y := 300; vx := 2178 / 100; vy := 0;
       color := PLAYER_BALL_COLOR; is_target := false; moving := true |}.
Proof.
  unfold update, bounce, BALL_RADIUS, SCREEN_WIDTH, BOARD_HEIGHT,
         FRICTION, MIN_VELOCITY.
  ball_simpl. decide_ltb.
  rewrite (sqrt_of_square _ (2178 / 100)) by lra.
  decide_ltb. ball_eq.
Qed.

Lemma first_shot_collision :
  collide_with
    {| x := 122; y := 300; vx := 2178 / 100; vy := 0;
       color := PLAYER_BALL_COLOR; is_target := false; moving := true |}
    (Ball_init 146 300 TARGET_BALL_COLOR true)
  = ({| x := 119; y := 300; vx := - (13068 / 1000); vy := 0;
        color := PLAYER_BALL_COLOR; is_target := false; moving := true |},
     {| x := 149; y := 300; vx := 34848 / 1000; vy := 0;
        color := TARGET_BALL_COLOR; is_target := true; moving := true |},
     true).
Proof.
  unfold collide_with, collide_with_e, Ball_init, BALL_RADIUS, RESTITUTION.
  ball_simpl.
  rewrite (sqrt_of_square _ 24) by lra.
  decide_ltb. ball_simpl.
  collision_eq.
Qed.

(** The first frame of such a round, end to end: the ball is launched at 22
    units per tick, integrated once (speed 21.78) and collides with the
    resting target; after the frame the target moves at 34.848 units per
    tick, faster than the launch speed. *)
Lemma first_shot_frame :
  frame first_shot (Game_init 146 300)
  = ({| best_score := 0;
        target_ball := {| x := 149; y := 300; vx := 34848 / 1000; vy := 0;
                          color := TARGET_BALL_COLOR; is_target := true;
                          moving := true |};
        player_balls := [ {| x := 119; y := 300; vx := - (13068 / 1000); vy := 0;
                             color := PLAYER_BALL_COLOR; is_target := false;
                             moving := true |} ];
        balls_left := 1;
        placing_ball := false;
        all_balls_stopped := false;
        game_over := false;
        current_score := 0;
        triangle := None;
        temp_ball := None |}, true).
Proof.
  unfold frame. rewrite first_shot_placed.
  unfold tick. cbn [all_balls_stopped negb].
  unfold update_balls. cbn [player_balls length].
  change (update_balls_calls 1)
    with [CallUpdate Target; CallUpdate (Player 0); CallCollide (Player 0) Target].
  cbn [fold_left exec_call get_ball put_ball nth_error target_ball player_balls
       set_target_ball set_player_balls list_update best_score balls_left
       placing_ball all_balls_stopped game_over current_score triangle temp_ball].
  rewrite (update_rest (Ball_init 146 300 TARGET_BALL_COLOR true)) by reflexivity.
  rewrite first_shot_update.
  cbn [fold_left exec_call get_ball put_ball nth_error target_ball player_balls
       set_target_ball set_player_balls list_update best_score balls_left
       placing_ball all_balls_stopped game_over current_score triangle temp_ball].
  rewrite first_shot_collision.
  cbn [fold_left exec_call get_ball put_ball nth_error target_ball player_balls
       set_target_ball set_player_balls list_update best_score balls_left
       placing_ball all_balls_stopped game_over current_score triangle temp_ball].
  reflexivity.
Qed.

(** ** Both applications of the resolver to one pair can take effect *)

Lemma collide_with_far (a b : Ball) :
  (BALL_RADIUS * 2) ^ 2 <= (x b - x a) ^ 2 + (y b - y a) ^ 2 ->
  collide_with a b = (a, b, false).
Proof.
  intros H. unfold collide_with, collide_with_e.
  assert (Hd : BALL_RADIUS * 2 <= sqrt ((x b - x a) ^ 2 + (y b - y a) ^ 2)).
  { rewrite <- (sqrt_pow2 (BALL_RADIUS * 2)) by (unfold BALL_RADIUS; lra).
    now apply sqrt_le_1_alt. }
  now rewrite (proj2 (ltb_false _ _) Hd).
Qed.

(** In one [update_balls] on [overlapping_pair] the velocity response is
    applied to the two player balls twice: the call of ball 0 on ball 1 gives
    them the velocities (8, 0) and (-3, 0), ball 1 is then integrated back
    into ball 0, and the call of ball 1 on ball 0 changes the velocities
    again, to (-9.552, 0) and (14.582, 0). *)
Lemma update_balls_overlapping_pair :
  update_balls overlapping_pair
  = set_player_balls overlapping_pair
      [ {| x := 955 / 10; y := 100; vx := - (9552 / 1000); vy := 0;
           color := PLAYER_BALL_COLOR; is_target := false; moving := true |};
        {| x := 1255 / 10; y := 100; vx := 14582 / 1000; vy := 0;
           color := PLAYER_BALL_COLOR; is_target := false; moving := true |} ].
Proof.
  set (t := Ball_init 400 400 TARGET_BALL_COLOR true).
  set (p0 := Ball_init 100 100 PLAYER_BALL_COLOR false).
  set (p1 := {| x := 124; y := 100; vx := 5; vy := 0;
                color := PLAYER_BALL_COLOR; is_target := false; moving := true |}).
  set (p0a := {| x := 97; y := 100; vx := 8; vy := 0;
                 color := PLAYER_BALL_COLOR; is_target := false; moving := true |}).
  set (p1a := {| x := 127; y := 100; vx := -3; vy := 0;
                 color := PLAYER_BALL_COLOR; is_target := false; moving := true |}).
  set (p1b := {| x := 124; y := 100; vx := - (297 / 100); vy := 0;
                 color := PLAYER_BALL_COLOR; is_target := false; moving := true |}).
  assert (S3 : collide_with p0 t = (p0, t, false)).
  { apply collide_with_far. unfold BALL_RADIUS. cbn. lra. }
  assert (S4 : collide_with p0 p1 = (p0a, p1a, true)).
  { unfold collide_with, collide_with_e, p0, p1, p0a, p1a, Ball_init,
           BALL_RADIUS, RESTITUTION.
    ball_simpl. rewrite (sqrt_of_square _ 24) by lra.
    decide_ltb. ball_simpl. collision_eq. }
  assert (S5 : update p1a = p1b).
  { unfold update, bounce, p1a, p1b, BALL_RADIUS, SCREEN_WIDTH, BOARD_HEIGHT,
           FRICTION, MIN_VELOCITY.
    ball_simpl. decide_ltb.
    rewrite (sqrt_of_square _ (297 / 100)) by lra.
    decide_ltb. ball_eq. }
  assert (S6 : collide_with p1b t = (p1b, t, false)).
  { apply collide_with_far. unfold BALL_RADIUS. cbn. lra. }
  assert (S7 : collide_with p1b p0a
               = ({| x := 1255 / 10; y := 100; vx := 14582 / 1000; vy := 0;
                     color := PLAYER_BALL_COLOR; is_target := false; moving := true |},
                  {| x := 955 / 10; y := 100; vx := - (9552 / 1000); vy := 0;
                     color := PLAYER_BALL_COLOR; is_target := false; moving := true |},
                  true)).
  { unfold collide_with, collide_with_e, p1b, p0a, BALL_RADIUS, RESTITUTION.
    ball_simpl. rewrite (sqrt_of_square _ 27) by lra.
    decide_ltb. ball_simpl. collision_eq. }
  unfold update_balls, overlapping_pair. fold t p0 p1.
  cbn [player_balls length].
  change (update_balls_calls 2)
    with [CallUpdate Target;
          CallUpdate (Player 0); CallCollide (Player 0) Target;
          CallCollide (Player 0) (Player 1);
          CallUpdate (Player 1); CallCollide (Player 1) Target;
          CallCollide (Player 1) (Player 0)].
  cbn [fold_left exec_call get_ball put_ball nth_error target_ball player_balls
       set_target_ball set_player_balls list_update].
  rewrite (update_rest t), (update_rest p0) by reflexivity.
  cbn [fold_left exec_call get_ball put_ball nth_error target_ball player_balls
       set_target_ball set_player_balls list_update].
  rewrite S3.
  cbn [fold_left exec_call get_ball put_ball nth_error target_ball player_balls
       set_target_ball set_player_balls list_update].
  rewrite S4.
  cbn [fold_left exec_call get_ball put_ball nth_error target_ball player_balls
       set_target_ball set_player_balls list_update].
  rewrite S5.
  cbn [fold_left exec_call get_ball put_ball nth_error target_ball player_balls
       set_target_ball set_player_balls list_update].
  rewrite S6.
  cbn [fold_left exec_call get_ball put_ball nth_error target_ball player_balls
       set_target_ball set_player_balls list_update].
  rewrite S7.
  reflexivity.
Qed.

(** * Further properties of the physics core *)

(** ** [Ball.update]: the walls *)

Lemma bounce_range (p v : R) (limit : Z) :
  BALL_RADIUS * 2 <= limit ->
  BALL_RADIUS <= fst (bounce p v limit) <= limit - BALL_RADIUS.
Proof.
  intros Hl. unfold bounce.
  destruct (ltb _ _) eqn:E1; cbn [fst]; [lra |].
  destruct (gtb _ _) eqn:E2; cbn [fst]; [lra |].
  apply ltb_false in E1. apply gtb_false in E2. lra.
Qed.

(** X1: one integration step of a moving ball leaves its centre on the
    board, at least one radius away from each of the four walls, wherever the
    ball was and however fast it moved. *)
Theorem X1_update_keeps_ball_on_board (b : Ball) :
  moving b = true ->
  BALL_RADIUS <= x (update b) <= SCREEN_WIDTH - BALL_RADIUS /\
  BALL_RADIUS <= y (update b) <= BOARD_HEIGHT - BALL_RADIUS.
Proof.
  intros Hm. unfold update. rewrite Hm.
  pose proof (bounce_range (x b + vx b) (vx b) SCREEN_WIDTH) as Hx.
  pose proof (bounce_range (y b + vy b) (vy b) BOARD_HEIGHT) as Hy.
  destruct (bounce _ _ SCREEN_WIDTH) as [x2 vx2].
  destruct (bounce _ _ BOARD_HEIGHT) as [y2 vy2].
  cbn [fst] in Hx, Hy.
  assert (Hw : BALL_RADIUS * 2 <= SCREEN_WIDTH)
    by (unfold BALL_RADIUS, SCREEN_WIDTH; lra).
  assert (Hh : BALL_RADIUS * 2 <= BOARD_HEIGHT)
    by (unfold BALL_RADIUS, BOARD_HEIGHT; lra).
  destruct (ltb _ _); cbn [x y]; split; auto.
Qed.

(** X1 at [striker]. *)
Lemma X1_witness :
  moving striker = true /\
  BALL_RADIUS <= x (update striker) <= SCREEN_WIDTH - BALL_RADIUS /\
  BALL_RADIUS <= y (update striker) <= BOARD_HEIGHT - BALL_RADIUS.
Proof.
  split; [reflexivity |].
  apply (X1_update_keeps_ball_on_board striker). reflexivity.
Defined.

(** ** [Ball.update]: the speed *)

Lemma speed_nonneg (b : Ball) : 0 <= speed b.
Proof. apply sqrt_pos. Qed.

(** X2: an integration step never speeds a ball up: the speed after
    [update] is at most the speed before, and at most [FRICTION] times the
    speed before when the ball was moving, wall bounces included. *)
Theorem X2_update_slows_down (b : Ball) :
  speed (update b) <= speed b /\
  (moving b = true -> speed (update b) <= FRICTION * speed b).
Proof.
  assert (Hmv : moving b = true -> speed (update b) <= FRICTION * speed b).
  { intros Hm. pose proof (update_energy b Hm) as He.
    unfold speed.
    rewrite <- (sqrt_pow2 FRICTION) by (unfold FRICTION; lra).
    rewrite <- sqrt_mult_alt by (unfold FRICTION; nra).
    now apply sqrt_le_1_alt. }
  split; [| exact Hmv].
  destruct (moving b) eqn:Em.
  - specialize (Hmv eq_refl). pose proof (speed_nonneg b).
    unfold FRICTION in Hmv. lra.
  - rewrite update_rest by exact Em. lra.
Qed.

(** ** An explicit bound on the settling time *)

Lemma pow_le_of_le (q : R) (n m : nat) :
  0 <= q <= 1 -> (n <= m)%nat -> q ^ m <= q ^ n.
Proof.
  intros Hq Hnm.
  replace m with (n + (m - n))%nat by lia.
  rewrite pow_add.
  assert (H1 : 0 <= q ^ n) by (apply pow_le; lra).
  assert (H2 : q ^ (m - n) <= 1).
  { rewrite <- (pow1 (m - n)). apply pow_incr. lra. }
  nra.
Qed.

Lemma friction_decay_Z : (9801 ^ 537 * 48400 < 10000 ^ 537)%Z.
Proof. vm_compute. reflexivity. Qed.

Lemma friction_decay :
  (FRICTION ^ 2) ^ 537 * INITIAL_SPEED ^ 2 < MIN_VELOCITY ^ 2.
Proof.
  pose proof (IZR_lt _ _ friction_decay_Z) as H.
  rewrite mult_IZR in H.
  change 537%Z with (Z.of_nat 537) in H.
  rewrite <- !pow_IZR in H.
  assert (E : (FRICTION ^ 2) ^ 537 * 10000 ^ 537 = 9801 ^ 537).
  { rewrite <- Rpow_mult_distr. f_equal. unfold FRICTION. field. }
  assert (P : 0 < 10000 ^ 537) by (apply pow_lt; lra).
  revert H E P.
  generalize (10000 ^ 537) (9801 ^ 537) ((FRICTION ^ 2) ^ 537).
  intros p q a H E P.
  apply (Rmult_lt_reg_r p); [exact P |].
  replace (a * INITIAL_SPEED ^ 2 * p) with (a * p * 484)
    by (unfold INITIAL_SPEED; ring).
  rewrite E. unfold MIN_VELOCITY. lra.
Qed.

(** X3: a moving ball whose speed is at most the launch speed
    [INITIAL_SPEED] and that is only integrated (no collision) is at rest,
    with zero velocity, after 537 ticks, and stays so. *)
Theorem X3_rest_within_537_ticks (b : Ball) :
  moving b = true ->
  speed b <= INITIAL_SPEED ->
  forall m : nat, (537 <= m)%nat ->
    moving (Nat.iter m update b) = false /\
    vx (Nat.iter m update b) = 0 /\ vy (Nat.iter m update b) = 0.
Proof.
  intros Hm Hs m Hle.
  assert (HE : vx b ^ 2 + vy b ^ 2 <= INITIAL_SPEED ^ 2).
  { pose proof (speed_nonneg b) as H0. unfold speed in Hs, H0.
    rewrite <- (sqrt_sqrt (vx b ^ 2 + vy b ^ 2)) by apply sum_sq_nonneg.
    nra. }
  assert (Hrest : moving (Nat.iter m update b) = false).
  { destruct (moving (Nat.iter m update b)) eqn:Ei; [exfalso | reflexivity].
    pose proof (iter_update_energy m b Ei) as Hen.
    destruct m as [| m']; [lia |].
    pose proof (update_moving_threshold (Nat.iter m' update b) Ei) as Hth.
    change (update (Nat.iter m' update b)) with (Nat.iter (S m') update b) in Hth.
    unfold speed in Hth.
    apply sqrt_ge_sq in Hth;
      [| apply sum_sq_nonneg | unfold MIN_VELOCITY; lra].
    assert (Hq : 0 <= FRICTION ^ 2 <= 1) by (unfold FRICTION; lra).
    pose proof (pow_le_of_le (FRICTION ^ 2) 537 (S m') Hq Hle) as Hp.
    assert (H0 : 0 <= (FRICTION ^ 2) ^ S m') by (apply pow_le; lra).
    assert (H1 : 0 <= (FRICTION ^ 2) ^ 537) by (apply pow_le; lra).
    pose proof friction_decay as Hd.
    pose proof (sum_sq_nonneg (vx b) (vy b)) as HE0.
    revert Hth Hen Hp H0 H1 Hd.
    generalize ((FRICTION ^ 2) ^ S m') ((FRICTION ^ 2) ^ 537).
    intros qm q537 Hth Hen Hp H0 H1 Hd.
    assert (qm * (vx b ^ 2 + vy b ^ 2) <= q537 * INITIAL_SPEED ^ 2).
    { apply Rmult_le_compat; lra. }
    lra. }
  split; [exact Hrest |].
  apply (iter_update_inv m b); [| exact Hrest].
  unfold ball_inv. rewrite Hm. discriminate.
Qed.

(** X3 at [striker], whose speed is 5. *)
Lemma X3_witness :
  moving striker = true /\ speed striker <= INITIAL_SPEED /\
  moving (Nat.iter 537 update striker) = false.
Proof.
  assert (Hs : speed striker <= INITIAL_SPEED).
  { unfold speed, striker, INITIAL_SPEED. cbn [vx vy].
    rewrite (sqrt_of_square _ 5) by lra. lra. }
  split; [reflexivity |]. split; [exact Hs |].
  apply (X3_rest_within_537_ticks striker eq_refl Hs 537%nat). lia.
Defined.

(** ** [Ball.collide_with]: the overlap test *)

Lemma centre_distance_sym (a b : Ball) : centre_distance a b = centre_distance b a.
Proof. unfold centre_distance. f_equal. ring. Qed.

Lemma collide_with_e_apart (e : R) (a b : Ball) :
  BALL_RADIUS * 2 <= centre_distance a b ->
  collide_with_e e a b = (a, b, false).
Proof.
  unfold centre_distance, collide_with_e. intros H.
  now rewrite (proj2 (ltb_false _ _) H).
Qed.

Lemma collide_with_e_result (e : R) (a b : Ball) :
  0 < centre_distance a b < BALL_RADIUS * 2 ->
  let d := centre_distance a b in
  let nx := (x b - x a) / d in
  let ny := (y b - y a) / d in
  let overlap := BALL_RADIUS * 2 - d in
  let impulse := (1 + e) * ((vx b - vx a) * nx + (vy b - vy a) * ny) in
  collide_with_e e a b
  = ({| x := x a - nx * (overlap / 2); y := y a - ny * (overlap / 2);
        vx := vx a + impulse * nx; vy := vy a + impulse * ny;
        color := color a; is_target := is_target a; moving := true |},
     {| x := x b + nx * (overlap / 2); y := y b + ny * (overlap / 2);
        vx := vx b - impulse * nx; vy := vy b - impulse * ny;
        color := color b; is_target := is_target b; moving := true |},
     true).
Proof.
  intros [Hpos Hlt] d nx ny overlap impulse.
  unfold centre_distance in *. unfold collide_with_e.
  rewrite (proj2 (ltb_true _ _) Hlt), (proj2 (gtb_true _ _) Hpos).
  reflexivity.
Qed.

(** ** [Ball.collide_with]: velocities *)

(** X6: the velocity response acts along the line of centres only: the
    velocity component of each ball perpendicular to the line of centres is
    unchanged, and the relative velocity along the line of centres is
    multiplied by [- (1 + 2 e)], that is by -2.2 for the program's
    [RESTITUTION]. *)
Theorem X6_collision_acts_along_normal (e : R) (a b : Ball) :
  0 < centre_distance a b < BALL_RADIUS * 2 ->
  let a' := fst (fst (collide_with_e e a b)) in
  let b' := snd (fst (collide_with_e e a b)) in
  let nx := (x b - x a) / centre_distance a b in
  let ny := (y b - y a) / centre_distance a b in
  vx a' * - ny + vy a' * nx = vx a * - ny + vy a * nx /\
  vx b' * - ny + vy b' * nx = vx b * - ny + vy b * nx /\
  (vx b' - vx a') * nx + (vy b' - vy a') * ny
  = - (1 + 2 * e) * ((vx b - vx a) * nx + (vy b - vy a) * ny).
Proof.
  intros Hd a' b' nx ny. subst a' b'.
  rewrite (collide_with_e_result e a b Hd). cbn [fst snd vx vy].
  destruct Hd as [Hpos Hlt]. unfold centre_distance in Hpos.
  pose proof (unit_normal _ _ Hpos) as Hn.
  fold (centre_distance a b) in Hn. fold nx ny in Hn.
  fold nx ny.
  set (dp := (vx b - vx a) * nx + (vy b - vy a) * ny).
  split; [ring |]. split; [ring |].
  replace ((vx b - (1 + e) * dp * nx - (vx a + (1 + e) * dp * nx)) * nx
           + (vy b - (1 + e) * dp * ny - (vy a + (1 + e) * dp * ny)) * ny)
    with (dp - 2 * (1 + e) * dp * (nx ^ 2 + ny ^ 2))
    by (unfold dp; ring).
  rewrite Hn. ring.
Qed.

(** X6 at [striker] and [sitter]. *)
Lemma X6_witness :
  0 < centre_distance striker sitter < BALL_RADIUS * 2 /\
  (vx (snd (fst (collide_with striker sitter)))
   - vx (fst (fst (collide_with striker sitter))))
    * ((x sitter - x striker) / centre_distance striker sitter)
  + (vy (snd (fst (collide_with striker sitter)))
     - vy (fst (fst (collide_with striker sitter))))
    * ((y sitter - y striker) / centre_distance striker sitter)
  = - (1 + 2 * RESTITUTION)
    * ((vx sitter - vx striker)
         * ((x sitter - x striker) / centre_distance striker sitter)
       + (vy sitter - vy striker)
         * ((y sitter - y striker) / centre_distance striker sitter)).
Proof.
  assert (Hd : 0 < centre_distance striker sitter < BALL_RADIUS * 2).
  { unfold centre_distance, striker, sitter, Ball_init, BALL_RADIUS. cbn [x y].
    rewrite (sqrt_of_square _ 24) by lra. lra. }
  split; [exact Hd |].
  apply (X6_collision_acts_along_normal RESTITUTION striker sitter Hd).
Defined.

(** ** [Ball.move_towards] *)

(** X7: a launch towards a point other than the ball's own position leaves
    the ball where it is, marks it moving, and gives it a velocity that points
    from the ball to the target point and whose magnitude is the requested
    speed (22 for the default [INITIAL_SPEED]). *)
Theorem X7_launch_speed_and_direction (b : Ball) (target_x target_y speed0 : R) :
  target_x <> x b \/ target_y <> y b ->
  let b' := move_towards_speed b target_x target_y speed0 in
  let d := sqrt ((target_x - x b) ^ 2 + (target_y - y b) ^ 2) in
  0 < d /\
  x b' = x b /\ y b' = y b /\ moving b' = true /\
  vx b' * d = speed0 * (target_x - x b) /\
  vy b' * d = speed0 * (target_y - y b) /\
  speed b' = Rabs speed0.
Proof.
  intros Hne b' d.
  assert (Hd : 0 < d).
  { unfold d. apply sqrt_lt_R0.
    destruct Hne as [H | H].
    - assert (H1 : 0 < Rsqr (target_x - x b)) by (apply Rsqr_pos_lt; lra).
      pose proof (pow2_ge_0 (target_y - y b)) as H2.
      unfold Rsqr in H1.
      replace ((target_x - x b) ^ 2) with ((target_x - x b) * (target_x - x b))
        by ring.
      lra.
    - assert (H1 : 0 < Rsqr (target_y - y b)) by (apply Rsqr_pos_lt; lra).
      pose proof (pow2_ge_0 (target_x - x b)) as H2.
      unfold Rsqr in H1.
      replace ((target_y - y b) ^ 2) with ((target_y - y b) * (target_y - y b))
        by ring.
      lra. }
  assert (Eb : b' = {| x := x b; y := y b;
                       vx := (target_x - x b) / d * speed0;
                       vy := (target_y - y b) / d * speed0;
                       color := color b; is_target := is_target b;
                       moving := true |}).
  { unfold b', move_towards_speed. fold d.
    now rewrite (proj2 (gtb_true _ _) Hd). }
  rewrite Eb. cbn [x y vx vy moving]. unfold speed. cbn [vx vy].
  split; [exact Hd |].
  repeat split; try (field; lra).
  pose proof (unit_normal _ _ Hd) as Hn. fold d in Hn.
  replace (((target_x - x b) / d * speed0) ^ 2 + ((target_y - y b) / d * speed0) ^ 2)
    with (speed0 ^ 2 * (((target_x - x b) / d) ^ 2 + ((target_y - y b) / d) ^ 2))
    by ring.
  rewrite Hn, Rmult_1_r.
  replace (speed0 ^ 2) with (Rsqr speed0) by (unfold Rsqr; ring).
  apply sqrt_Rsqr_abs.
Qed.

(** X7 at a ball placed at (100, 300) and launched towards (146, 300). *)
Lemma X7_witness :
  (146 <> x (Ball_init 100 300 PLAYER_BALL_COLOR false) \/
   300 <> y (Ball_init 100 300 PLAYER_BALL_COLOR false)) /\
  speed (move_towards (Ball_init 100 300 PLAYER_BALL_COLOR false) 146 300)
  = Rabs INITIAL_SPEED.
Proof.
  assert (H : 146 <> x (Ball_init 100 300 PLAYER_BALL_COLOR false) \/
              300 <> y (Ball_init 100 300 PLAYER_BALL_COLOR false))
    by (left; cbn [x Ball_init]; lra).
  split; [exact H |].
  apply (X7_launch_speed_and_direction
           (Ball_init 100 300 PLAYER_BALL_COLOR false) 146 300 INITIAL_SPEED H).
Defined.

(** ** What [update_balls] leaves alone *)

Lemma list_update_length {A : Type} (l : list A) (i : nat) (a : A) :
  length (list_update l i a) = length l.
Proof.
  revert i. induction l as [| h t IH]; intros i; [reflexivity |].
  destruct i; cbn [list_update length]; [reflexivity | now rewrite IH].
Qed.

Lemma map_list_update {A B : Type} (f : A -> B) (l : list A) (i : nat) (a a0 : A) :
  nth_error l i = Some a0 -> f a = f a0 ->
  map f (list_update l i a) = map f l.
Proof.
  revert i. induction l as [| h t IH]; intros i Hn Hf; [reflexivity |].
  destruct i; cbn [list_update map nth_error] in *.
  - inversion Hn; subst. now rewrite Hf.
  - now rewrite (IH i Hn Hf).
Qed.

Lemma same_round_refl (self : Game) : same_round self self.
Proof. unfold same_round. repeat split; reflexivity. Qed.

Lemma same_round_trans (g1 g2 g3 : Game) :
  same_round g1 g2 -> same_round g2 g3 -> same_round g1 g3.
Proof.
  unfold same_round.
  intros (A1 & A2 & A3 & A4 & A5 & A6 & A7 & A8 & A9 & A10)
         (B1 & B2 & B3 & B4 & B5 & B6 & B7 & B8 & B9 & B10).
  repeat split; congruence.
Qed.

Lemma put_ball_same_round (self : Game) (r : Ref) (b0 b : Ball) :
  get_ball self r = Some b0 -> identity b = identity b0 ->
  same_round self (put_ball self r b).
Proof.
  intros Hg Hi. destruct r as [| i]; cbn [get_ball put_ball] in *.
  - inversion Hg; subst. unfold same_round. cbn. repeat split; auto.
  - unfold same_round. cbn. repeat split; auto.
    now apply (map_list_update identity _ i b b0).
Qed.

Lemma update_identity (b : Ball) : identity (update b) = identity b.
Proof.
  unfold update, identity.
  destruct (moving b); [| reflexivity].
  destruct (bounce _ _ SCREEN_WIDTH), (bounce _ _ BOARD_HEIGHT).
  destruct (ltb _ _); reflexivity.
Qed.

Lemma collide_with_identity (a b : Ball) :
  identity (fst (fst (collide_with a b))) = identity a /\
  identity (snd (fst (collide_with a b))) = identity b.
Proof.
  unfold collide_with, collide_with_e, identity.
  destruct (ltb _ _); [| split; reflexivity].
  destruct (gtb _ _); split; reflexivity.
Qed.

Lemma exec_call_same_round (self : Game) (c : Call) :
  (forall r, c <> CallCollide r r) ->
  same_round self (exec_call self c).
Proof.
  intros Hd. destruct c as [r | r1 r2]; cbn [exec_call].
  - destruct (get_ball self r) as [b |] eqn:E; [| apply same_round_refl].
    apply (put_ball_same_round self r b); [exact E | apply update_identity].
  - destruct (get_ball self r1) as [a |] eqn:E1; [| apply same_round_refl].
    destruct (get_ball self r2) as [b |] eqn:E2; [| apply same_round_refl].
    pose proof (collide_with_identity a b) as [Ia Ib].
    destruct (collide_with a b) as [[a' b'] hit]. cbn [fst snd] in Ia, Ib.
    assert (Hne : r1 <> r2) by (intros ->; now apply (Hd r2)).
    apply (same_round_trans _ (put_ball self r1 a')).
    + now apply (put_ball_same_round self r1 a).
    + apply (put_ball_same_round _ r2 b); [| exact Ib].
      destruct r1 as [| i], r2 as [| j]; cbn [get_ball put_ball] in *;
        cbn [target_ball player_balls set_target_ball set_player_balls];
        try congruence.
      assert (Hij : i <> j) by congruence.
      clear -E2 Hij. revert i j Hij E2.
      induction (player_balls self) as [| h t IH]; intros i j Hij E2.
      * destruct j; discriminate.
      * destruct i, j; cbn [list_update nth_error] in *; try congruence.
        apply IH; [lia | exact E2].
Qed.

Lemma update_balls_calls_distinct (n : nat) (c : Call) :
  In c (update_balls_calls n) -> forall r, c <> CallCollide r r.
Proof.
  unfold update_balls_calls. intros [<- | H] r; [discriminate |].
  apply in_flat_map in H. destruct H as (i & _ & H).
  unfold outer_calls in H.
  destruct H as [<- | [<- | H]]; try discriminate; try congruence.
  unfold inner_calls in H. apply in_flat_map in H. destruct H as (j & _ & H).
  destruct (Nat.eqb_spec i j) as [| Hij]; [contradiction |].
  destruct H as [<- | []]. congruence.
Qed.

Lemma fold_exec_call_same_round (calls : list Call) (self : Game) :
  (forall c, In c calls -> forall r, c <> CallCollide r r) ->
  same_round self (fold_left exec_call calls self).
Proof.
  revert self. induction calls as [| c cs IH]; intros self H; cbn [fold_left].
  - apply same_round_refl.
  - apply (same_round_trans _ (exec_call self c)).
    + apply exec_call_same_round. apply H. now left.
    + apply IH. intros c' Hc'. apply H. now right.
Qed.

Lemma update_balls_same_round (self : Game) :
  same_round self (update_balls self) /\
  length (player_balls (update_balls self)) = length (player_balls self).
Proof.
  assert (H : same_round self (update_balls self)).
  { apply fold_exec_call_same_round. apply update_balls_calls_distinct. }
  split; [exact H |].
  destruct H as (_ & _ & _ & _ & _ & _ & _ & _ & _ & H).
  apply (f_equal (@length _)) in H. now rewrite !length_map in H.
Qed.

(** X10: [update_balls] changes nothing but the positions, velocities and
    moving flags of the balls: the number of player balls, the colour and
    role of every ball, the counters, flags, scores, stored triangle and
    preview ball are as before. *)
Theorem X10_update_balls_frame (self : Game) :
  length (player_balls (update_balls self)) = length (player_balls self) /\
  identity (target_ball (update_balls self)) = identity (target_ball self) /\
  map identity (player_balls (update_balls self)) = map identity (player_balls self) /\
  best_score (update_balls self) = best_score self /\
  current_score (update_balls self) = current_score self /\
  balls_left (update_balls self) = balls_left self /\
  placing_ball (update_balls self) = placing_ball self /\
  all_balls_stopped (update_balls self) = all_balls_stopped self /\
  game_over (update_balls self) = game_over self /\
  triangle (update_balls self) = triangle self /\
  temp_ball (update_balls self) = temp_ball self.
Proof.
  destruct (update_balls_same_round self)
    as [(A1 & A2 & A3 & A4 & A5 & A6 & A7 & A8 & A9 & A10) Hlen].
  repeat split; assumption.
Qed.

(** ** The counters and flags of a round *)

Lemma all_stopped_ext (g g' : Game) :
  target_ball g' = target_ball g -> player_balls g' = player_balls g ->
  all_stopped g' = all_stopped g.
Proof. unfold all_stopped. now intros -> ->. Qed.

Lemma calculate_triangle_area_snd (self : Game) :
  snd (calculate_triangle_area self)
  = set_triangle self (triangle (snd (calculate_triangle_area self))).
Proof.
  unfold calculate_triangle_area. destruct self as [bs tb pb bl pl st go cs tr tmp].
  cbn [player_balls target_ball].
  destruct pb as [| b0 [| b1 rest]]; try reflexivity.
  destruct (heron _ _ _) as [area [t |]]; reflexivity.
Qed.

Lemma round_inv_Game_init (tx ty : Z) : round_inv (Game_init tx ty).
Proof.
  unfold round_inv. cbn.
  repeat split; try reflexivity; try lia; intros; discriminate.
Qed.

Lemma round_inv_reset_game (tx ty : Z) (self : Game) : round_inv (reset_game tx ty self).
Proof.
  unfold round_inv. cbn.
  repeat split; try reflexivity; try lia; intros; discriminate.
Qed.

Lemma can_place_off_target (self : Game) (pos : Z * Z) :
  can_place self pos = true ->
  IZR (fst pos) <> x (target_ball self) \/ IZR (snd pos) <> y (target_ball self).
Proof.
  intros H. apply can_place_true in H. destruct H as [H _].
  unfold distance_to in H.
  destruct (Req_dec_T (IZR (fst pos)) (x (target_ball self))) as [Ex | Ex];
    [| now left].
  right. intros Ey.
  assert (Hd : sqrt ((fst pos - x (target_ball self)) ^ 2
                     + (snd pos - y (target_ball self)) ^ 2) = 0)
    by (apply sqrt_sum_sq_zero; lra).
  rewrite Hd in H. unfold BALL_RADIUS in H. lra.
Qed.

Lemma all_stopped_placed (self : Game) (pos : Z * Z) :
  all_stopped (placed self pos) = all_stopped self.
Proof.
  unfold all_stopped, placed. cbn [target_ball player_balls].
  destruct (moving (target_ball self)); [reflexivity |].
  rewrite forallb_app. cbn. now rewrite !andb_true_r.
Qed.

Lemma round_inv_placed (self : Game) (pos : Z * Z) :
  round_inv self ->
  all_stopped self = true -> (0 < balls_left self)%Z -> game_over self = false ->
  can_place self pos = true ->
  round_inv (placed self pos).
Proof.
  intros (Ha & Hb & Hc & Hd & He) Hs Hl Hg Hp.
  unfold round_inv. rewrite all_stopped_placed.
  cbn [placed player_balls balls_left all_balls_stopped game_over placing_ball].
  split; [rewrite length_app; cbn [length]; lia |].
  split; [lia |].
  split; [exact Hc |].
  split; [intros H; congruence |].
  intros _. split; [congruence |].
  unfold last_off_target. cbn [placed player_balls target_ball].
  rewrite rev_app_distr. cbn [rev app Ball_init x y].
  now apply can_place_off_target.
Qed.

Lemma round_inv_on_mouse_button_down (button : Z) (pos : Z * Z) (self : Game) :
  round_inv self -> round_inv (on_mouse_button_down button pos self).
Proof.
  intros H. pose proof (round_inv_placed self pos H) as HP.
  unfold on_mouse_button_down. fold (placed self pos).
  destruct (button =? 1)%Z; cbn [andb]; [| exact H].
  destruct (all_stopped self); cbn [andb]; [| exact H].
  destruct (0 <? balls_left self)%Z eqn:Hl; cbn [andb]; [| exact H].
  destruct (negb (game_over self)) eqn:Hg; [| exact H].
  destruct (snd pos <=? BOARD_HEIGHT)%Z; [| exact H].
  destruct (can_place self pos); [| exact H].
  apply Z.ltb_lt in Hl. apply negb_true_iff in Hg.
  now apply HP.
Qed.

Lemma forallb_list_update_last (p : Ball -> bool) (l : list Ball) (a : Ball) :
  l <> [] -> p a = false ->
  forallb p (list_update l (length l - 1) a) = false.
Proof.
  intros Hl Ha. induction l as [| h t IH]; [congruence |].
  destruct t as [| h' t'].
  - cbn. now rewrite Ha.
  - replace (length (h :: h' :: t') - 1)%nat with (S (length (h' :: t') - 1))
      by (cbn [length]; lia).
    change (list_update (h :: h' :: t') (S (length (h' :: t') - 1)) a)
      with (h :: list_update (h' :: t') (length (h' :: t') - 1) a).
    cbn [forallb].
    rewrite IH by discriminate. apply andb_false_r.
Qed.

Lemma move_towards_moving (b : Ball) (tx ty : R) :
  tx <> x b \/ ty <> y b -> moving (move_towards b tx ty) = true.
Proof.
  intros H. unfold move_towards, move_towards_speed.
  assert (Hd : 0 < sqrt ((tx - x b) ^ 2 + (ty - y b) ^ 2)).
  { apply sqrt_lt_R0.
    pose proof (pow2_ge_0 (tx - x b)) as H1.
    pose proof (pow2_ge_0 (ty - y b)) as H2.
    destruct H as [H | H].
    - assert (H3 : 0 < Rsqr (tx - x b)) by (apply Rsqr_pos_lt; lra).
      unfold Rsqr in H3.
      replace ((tx - x b) ^ 2) with ((tx - x b) * (tx - x b)) in * by ring. lra.
    - assert (H3 : 0 < Rsqr (ty - y b)) by (apply Rsqr_pos_lt; lra).
      unfold Rsqr in H3.
      replace ((ty - y b) ^ 2) with ((ty - y b) * (ty - y b)) in * by ring. lra. }
  now rewrite (proj2 (gtb_true _ _) Hd).
Qed.

Lemma round_inv_on_mouse_button_up (button : Z) (self : Game) :
  round_inv self -> round_inv (on_mouse_button_up button self).
Proof.
  intros H. pose proof H as (Ha & Hb & Hc & Hd & He).
  unfold on_mouse_button_up.
  destruct (button =? 1)%Z; cbn [andb]; [| exact H].
  destruct (placing_ball self) eqn:Hp; [| exact H].
  destruct (He eq_refl) as [Hf Hlast].
  assert (Hg : game_over self = false).
  { destruct (game_over self); [| reflexivity].
    destruct (Hd eq_refl) as (_ & _ & Hx). discriminate. }
  unfold last_off_target in Hlast.
  destruct (rev (player_balls self)) as [| last_ball rest] eqn:Er; [contradiction |].
  assert (Hne : player_balls self <> []).
  { intros E. rewrite E in Er. discriminate. }
  unfold round_inv, all_stopped, last_off_target.
  cbn [player_balls balls_left all_balls_stopped game_over placing_ball target_ball].
  rewrite list_update_length.
  split; [exact Ha |]. split; [exact Hb |].
  split.
  - destruct (moving (target_ball self)); [reflexivity |].
    symmetry. apply forallb_list_update_last; [exact Hne |].
    rewrite move_towards_moving; [reflexivity |].
    cbn [set_color x y]. destruct Hlast as [Hx | Hy]; [left | right]; congruence.
  - split; [intros E; congruence | intros E; discriminate].
Qed.

Lemma round_inv_on_mouse_motion (pos : Z * Z) (self : Game) :
  round_inv self -> round_inv (on_mouse_motion pos self).
Proof.
  intros H. unfold on_mouse_motion.
  destruct (_ && _)%bool; [| exact H].
  destruct (can_place self pos); exact H.
Qed.

Lemma round_inv_tick (self : Game) : round_inv self -> round_inv (tick self).
Proof.
  intros H. pose proof H as (Ha & Hb & Hc & Hd & He).
  unfold tick.
  destruct (all_balls_stopped self) eqn:Hf; cbn [negb]; [exact H |].
  assert (Hg : game_over self = false).
  { destruct (game_over self); [| reflexivity].
    destruct (Hd eq_refl) as (_ & Hx & _). discriminate. }
  assert (Hp : placing_ball self = false).
  { destruct (placing_ball self); [| reflexivity].
    destruct (He eq_refl) as (Hx & _). discriminate. }
  destruct (update_balls_same_round self) as [Hsame Hlen].
  destruct Hsame as (_ & S2 & S3 & _ & S5 & _).
  set (g1 := update_balls self) in *.
  destruct (all_stopped g1) eqn:Hs; cbn [andb].
  - destruct (balls_left g1 =? 0)%Z eqn:Hz.
    + apply Z.eqb_eq in Hz.
      pose proof (calculate_triangle_area_snd g1) as Hsnd.
      destruct (calculate_triangle_area g1) as [area g2]. cbn [snd] in Hsnd.
      rewrite Hsnd.
      unfold round_inv, all_stopped, last_off_target.
      cbn [set_triangle player_balls balls_left all_balls_stopped game_over
           placing_ball target_ball].
      fold (all_stopped g1). rewrite Hs, Hlen, S3, Hp.
      repeat split; try congruence; try lia; intros; discriminate.
    + unfold round_inv, all_stopped, last_off_target.
      cbn [player_balls balls_left all_balls_stopped game_over
           placing_ball target_ball].
      fold (all_stopped g1). rewrite Hs, Hlen, S3, S5, Hp, Hg.
      repeat split; try congruence; try lia; intros; discriminate.
  - unfold round_inv, all_stopped, last_off_target.
    cbn [player_balls balls_left all_balls_stopped game_over
         placing_ball target_ball].
    fold (all_stopped g1). rewrite Hs, Hlen, S3, S5, Hp, Hg.
    repeat split; try congruence; try lia; intros; discriminate.
Qed.

Lemma round_inv_handle_event (env : Env) (ev : Event) (st : Game * bool) :
  round_inv (fst st) -> round_inv (fst (handle_event env ev st)).
Proof.
  destruct st as [self running]. cbn [fst]. intros H.
  destruct ev as [| [| |] | button | button | |]; cbn [handle_event fst]; auto.
  - apply round_inv_reset_game.
  - now apply round_inv_on_mouse_button_down.
  - now apply round_inv_on_mouse_button_up.
  - now apply round_inv_on_mouse_motion.
Qed.

Lemma round_inv_frame (events : list (Env * Event)) (self : Game) :
  round_inv self -> round_inv (fst (frame events self)).
Proof.
  intros H. unfold frame.
  assert (H1 : forall st, round_inv (fst st) ->
             round_inv (fst (fold_left
                               (fun st ee => handle_event (fst ee) (snd ee) st)
                               events st))).
  { induction events as [| ee es IH]; intros st Hst; cbn [fold_left]; [exact Hst |].
    apply IH. now apply round_inv_handle_event. }
  specialize (H1 (self, true) H).
  destruct (fold_left _ events (self, true)) as [self1 running].
  cbn [fst] in *. now apply round_inv_tick.
Qed.

Lemma round_inv_run (frames : list (list (Env * Event))) (self : Game) :
  round_inv self -> round_inv (run frames self).
Proof.
  revert self. induction frames as [| events rest IH]; intros self H; cbn [run];
    [exact H |].
  pose proof (round_inv_frame events self H) as H1.
  destruct (frame events self) as [self1 running]. cbn [fst] in H1.
  destruct running; auto.
Qed.

(** X11: in every state the main loop can reach from a new game, the number
    of player balls and the number of balls left add up to 2; so there are
    never more than two player balls and [balls_left] is never negative. *)
Theorem X11_placements_are_counted (frames : list (list (Env * Event))) (tx ty : Z) :
  let self := run frames (Game_init tx ty) in
  (Z.of_nat (length (player_balls self)) + balls_left self = 2)%Z /\
  (0 <= balls_left self <= 2)%Z /\
  (length (player_balls self) <= 2)%nat.
Proof.
  intros self.
  destruct (round_inv_run frames _ (round_inv_Game_init tx ty)) as (Ha & Hb & _).
  fold self in Ha, Hb. lia.
Qed.

(** X12: in every state the main loop can reach from a new game (at the end
    of a frame), the cached flag [all_balls_stopped] agrees with
    [all_stopped()]; a finished round has no ball left, exactly two player
    balls, every ball at rest and no placement in progress; and while a
    placement is in progress (button held) every ball is at rest and the
    round is not finished. *)
Theorem X12_flags_are_coherent (frames : list (list (Env * Event))) (tx ty : Z) :
  let self := run frames (Game_init tx ty) in
  all_balls_stopped self = all_stopped self /\
  (game_over self = true ->
     balls_left self = 0%Z /\ length (player_balls self) = 2%nat /\
     all_stopped self = true /\ placing_ball self = false) /\
  (placing_ball self = true ->
     all_stopped self = true /\ game_over self = false /\ player_balls self <> []).
Proof.
  intros self.
  destruct (round_inv_run frames _ (round_inv_Game_init tx ty))
    as (Ha & Hb & Hc & Hd & He).
  fold self in Ha, Hb, Hc, Hd, He.
  split; [exact Hc |]. split.
  - intros Hg. destruct (Hd Hg) as (H1 & H2 & H3).
    repeat split; [exact H1 | lia | congruence | exact H3].
  - intros Hp. destruct (He Hp) as (H1 & H2).
    split; [congruence |]. split.
    + destruct (game_over self) eqn:Hg; [| reflexivity].
      destruct (Hd eq_refl) as (_ & _ & H3). congruence.
    + unfold last_off_target in H2. intros E. now rewrite E in H2.
Qed.

(** ** A finished round *)

Lemma handle_event_finished (env : Env) (ev : Event) (self : Game) (running : bool) :
  game_over self = true -> placing_ball self = false ->
  ev <> KEYDOWN K_r ->
  fst (handle_event env ev (self, running)) = self.
Proof.
  intros Hg Hp Hev.
  destruct ev as [| [| |] | button | button | |]; cbn [handle_event fst];
    try reflexivity.
  - congruence.
  - unfold on_mouse_button_down. now rewrite Hg, !andb_false_r.
  - unfold on_mouse_button_up. now rewrite Hp, andb_false_r.
  - unfold on_mouse_motion. now rewrite Hg, !andb_false_r.
Qed.

Lemma frame_finished (events : list (Env * Event)) (self : Game) :
  game_over self = true -> all_balls_stopped self = true ->
  placing_ball self = false ->
  Forall (fun ee => snd ee <> KEYDOWN K_r) events ->
  fst (frame events self) = self.
Proof.
  intros Hg Hs Hp Hev. unfold frame.
  assert (H : forall running,
             fst (fold_left (fun st ee => handle_event (fst ee) (snd ee) st)
                            events (self, running)) = self).
  { induction Hev as [| ee es Hee Hes IH]; intros running; cbn [fold_left];
      [reflexivity |].
    pose proof (handle_event_finished (fst ee) (snd ee) self running Hg Hp Hee) as E.
    destruct (handle_event (fst ee) (snd ee) (self, running)) as [g r].
    cbn [fst] in E. subst g. apply IH. }
  specialize (H true).
  destruct (fold_left _ events (self, true)) as [self1 running].
  cbn [fst] in *. subst self1.
  unfold tick. now rewrite Hs.
Qed.

(** X13: a finished round is frozen: once [game_over] is set (with every
    ball at rest and no placement in progress, as X12 shows for every
    reachable finished round), no click, release, mouse motion or frame
    update changes the game object; in particular the score is not computed
    again.  Only the R key starts a new round. *)
Theorem X13_finished_round_is_frozen
    (self : Game) (frames : list (list (Env * Event))) :
  game_over self = true -> all_balls_stopped self = true ->
  placing_ball self = false ->
  no_reset frames ->
  run frames self = self.
Proof.
  intros Hg Hs Hp Hev.
  induction Hev as [| events rest Hevents Hrest IH]; cbn [run]; [reflexivity |].
  pose proof (frame_finished events self Hg Hs Hp Hevents) as E.
  destruct (frame events self) as [self1 running]. cbn [fst] in E. subst self1.
  destruct running; [exact IH | reflexivity].
Qed.

(** X13 at [finished_game]: a click, the release and a frame without
    events. *)
Lemma X13_witness :
  run [ [ ({| mouse_pos := (200, 200)%Z; randint_x := 0; randint_y := 0 |},
           MOUSEBUTTONDOWN 1);
          ({| mouse_pos := (200, 200)%Z; randint_x := 0; randint_y := 0 |},
           MOUSEBUTTONUP 1) ];
        [] ] finished_game
  = finished_game.
Proof.
  apply (X13_finished_round_is_frozen finished_game); try reflexivity.
  unfold no_reset.
  repeat constructor; cbn [snd]; discriminate.
Defined.

(** ** The preview ball *)

Lemma on_mouse_motion_guard (pos : Z * Z) (self : Game) :
  on_mouse_motion pos self
  = if (accepting_placement self && (snd pos <=? BOARD_HEIGHT)%Z)%bool
    then set_temp_ball self
           (if can_place self pos
            then Some (Ball_init (fst pos) (snd pos) PLAYER_BALL_COLOR false)
            else None)
    else self.
Proof.
  unfold on_mouse_motion, accepting_placement.
  destruct (snd pos <=? BOARD_HEIGHT)%Z; cbn [andb];
    [| now rewrite andb_false_r].
  rewrite andb_true_r.
  destruct (all_stopped self && (0 <? balls_left self)%Z && negb (game_over self))%bool;
    [| reflexivity].
  destruct (can_place self pos); reflexivity.
Qed.

(** X15: the preview shown while the mouse moves and the placement made by
    a click use the same test.  A mouse motion changes nothing but
    [temp_ball].  When the round accepts a placement and the pointer is not
    below the board, either the preview ball is set at the pointer and a left
    click there places exactly that ball, or the preview is cleared and a left
    click there is rejected.  Otherwise the motion leaves even [temp_ball] as
    it was (a stale preview is not cleared) and a click is rejected. *)
Theorem X15_preview_agrees_with_click (self : Game) (pos : Z * Z) :
  let preview := Ball_init (fst pos) (snd pos) PLAYER_BALL_COLOR false in
  on_mouse_motion pos self = set_temp_ball self (temp_ball (on_mouse_motion pos self)) /\
  ((accepting_placement self && (snd pos <=? BOARD_HEIGHT)%Z)%bool = true ->
     (temp_ball (on_mouse_motion pos self) = Some preview /\
      on_mouse_button_down 1 pos self = placed self pos /\
      player_balls (placed self pos) = player_balls self ++ [preview])
     \/
     (temp_ball (on_mouse_motion pos self) = None /\
      on_mouse_button_down 1 pos self = self)) /\
  ((accepting_placement self && (snd pos <=? BOARD_HEIGHT)%Z)%bool = false ->
     on_mouse_motion pos self = self /\ on_mouse_button_down 1 pos self = self).
Proof.
  intros preview.
  rewrite on_mouse_motion_guard, on_mouse_button_down_guard.
  destruct (accepting_placement self && (snd pos <=? BOARD_HEIGHT)%Z)%bool;
    cbn [andb].
  - split; [reflexivity |]. split; [| discriminate].
    intros _. destruct (can_place self pos); [left | right]; repeat split.
  - split; [now destruct self |]. split; [discriminate |].
    intros _. split; reflexivity.
Qed.

(** ** Leaving the main loop *)

Lemma handle_event_running (env : Env) (ev : Event) (self : Game) (running : bool) :
  handle_event env ev (self, running)
  = (fst (handle_event env ev (self, true)), running && negb (is_quit ev)).
Proof.
  destruct ev as [| [| |] | button | button | |]; cbn [handle_event fst is_quit negb];
    rewrite ?andb_true_r, ?andb_false_r; reflexivity.
Qed.

Lemma handle_event_quit (env : Env) (ev : Event) (st : Game * bool) :
  is_quit ev = true -> fst (handle_event env ev st) = fst st.
Proof.
  destruct st as [self running].
  destruct ev as [| [| |] | button | button | |]; cbn [is_quit]; try discriminate;
    reflexivity.
Qed.

Lemma fold_handle_event_running (events : list (Env * Event)) (self : Game) (running : bool) :
  snd (fold_left (fun st ee => handle_event (fst ee) (snd ee) st) events (self, running))
  = running && negb (quits events).
Proof.
  revert self running. induction events as [| ee es IH]; intros self running;
    cbn [fold_left quits existsb].
  - now rewrite andb_true_r.
  - rewrite handle_event_running, IH.
    fold (quits es). rewrite negb_orb. now rewrite andb_assoc.
Qed.

Lemma fold_handle_event_fst (events : list (Env * Event)) (self : Game) (r r' : bool) :
  fst (fold_left (fun st ee => handle_event (fst ee) (snd ee) st) events (self, r))
  = fst (fold_left (fun st ee => handle_event (fst ee) (snd ee) st) events (self, r')).
Proof.
  revert self r r'. induction events as [| ee es IH]; intros self r r';
    cbn [fold_left]; [reflexivity |].
  rewrite (handle_event_running (fst ee) (snd ee) self r),
          (handle_event_running (fst ee) (snd ee) self r').
  apply IH.
Qed.

Lemma fold_handle_event_filter (events : list (Env * Event)) (st : Game * bool) :
  fst (fold_left (fun st ee => handle_event (fst ee) (snd ee) st) events st)
  = fst (fold_left (fun st ee => handle_event (fst ee) (snd ee) st)
                   (filter (fun ee => negb (is_quit (snd ee))) events) st).
Proof.
  revert st. induction events as [| ee es IH]; intros st; cbn [fold_left filter];
    [reflexivity |].
  destruct (is_quit (snd ee)) eqn:Q; cbn [negb fold_left]; [| apply IH].
  destruct st as [self running].
  rewrite (handle_event_running (fst ee) (snd ee) self running).
  pose proof (handle_event_quit (fst ee) (snd ee) (self, true) Q) as E.
  cbn [fst] in E. rewrite E.
  rewrite (fold_handle_event_fst es self _ running). apply IH.
Qed.

(** X16: quitting takes effect at the end of the frame.  A frame leaves the
    loop exactly when one of its events is a window close or the Escape key;
    such events do not change the game object, the other events of the frame
    and the physics step are still carried out, and no later frame is run. *)
Theorem X16_quit_ends_the_loop_after_the_frame
    (events : list (Env * Event)) (rest : list (list (Env * Event))) (self : Game) :
  snd (frame events self) = negb (quits events) /\
  fst (frame events self)
  = fst (frame (filter (fun ee => negb (is_quit (snd ee))) events) self) /\
  run (events :: rest) self
  = if quits events then fst (frame events self)
    else run rest (fst (frame events self)).
Proof.
  assert (H1 : snd (frame events self) = negb (quits events)).
  { unfold frame.
    pose proof (fold_handle_event_running events self true) as H.
    destruct (fold_left _ events (self, true)) as [g r]. cbn [snd] in *.
    exact H. }
  split; [exact H1 |]. split.
  - unfold frame.
    pose proof (fold_handle_event_filter events (self, true)) as H.
    destruct (fold_left _ events (self, true)) as [g r].
    destruct (fold_left _ (filter _ events) (self, true)) as [g' r'].
    cbn [fst] in *. now subst.
  - cbn [run]. destruct (frame events self) as [g r]. cbn [fst snd] in *.
    subst r. now destruct (quits events).
Qed.

(** ** What a frame shows *)

Lemma In_draw_game (self : Game) (op : DrawOp) :
  In op (draw_game self)
  <-> In op [ Fill UI_BG_COLOR;
              DrawRect BG_COLOR (0, 0, SCREEN_WIDTH, BOARD_HEIGHT)%Z;
              DrawLine TEXT_COLOR (0, BOARD_HEIGHT)%Z (SCREEN_WIDTH, BOARD_HEIGHT)%Z 2 ]
      \/ In op (if game_over self && truthy (triangle self)
                then match triangle self with
                     | Some pts => [DrawPolygon TRIANGLE_COLOR pts]
                     | None => []
                     end
                else [])
      \/ (exists b, (b = target_ball self \/ In b (player_balls self))
                    /\ op = Ball_draw b)
      \/ (exists ball, temp_ball self = Some ball /\
             (negb (placing_ball self) && all_balls_stopped self
              && (0 <? balls_left self)%Z)%bool = true /\
             op = DrawPreview (x ball - BALL_RADIUS, y ball - BALL_RADIUS))
      \/ In op [ DrawText (String.append "Score: "%string
                                         (py_str (py_int (current_score self))))
                           TEXT_COLOR (TopLeft (20, BOARD_HEIGHT + 15)%Z);
                  DrawText (String.append "Best: "%string
                                         (py_str (py_int (best_score self))))
                           TEXT_COLOR (TopLeft (20, BOARD_HEIGHT + 15 + 35)%Z) ]
      \/ In op (if game_over self then [restart_prompt]
                else if negb (game_over self) && all_balls_stopped self
                        && (0 <? balls_left self)%Z
                     then [click_prompt]
                     else [])
      \/ op = Flip.
Proof.
  unfold draw_game, draw_ui.
  rewrite in_app_iff, in_app_iff.
  change (In op (Ball_draw (target_ball self) :: ?l))
    with (Ball_draw (target_ball self) = op \/ In op l).
  cbn [In]. rewrite !in_app_iff, in_map_iff. cbn [In].
  split.
  - intros [H | [H | [H | [(b & H1 & H2) | [H | [[H | H] | [H | []]]]]]]].
    + left. exact H.
    + right. left. exact H.
    + right. right. left. exists (target_ball self). split; [now left | now symmetry].
    + right. right. left. exists b. split; [now right | now symmetry].
    + right. right. right. left.
      destruct (temp_ball self) as [ball |]; [| contradiction].
      destruct (_ && _)%bool; [| contradiction].
      destruct H as [H | []]. exists ball. repeat split. now symmetry.
    + do 4 right. left. exact H.
    + do 5 right. left. exact H.
    + do 6 right. now symmetry.
  - intros [H | [H | [(b & [-> | Hb] & ->) | [(ball & E & G & ->) | [H | [H | ->]]]]]].
    + left. exact H.
    + right. left. exact H.
    + right. right. left. reflexivity.
    + right. right. right. left. exists b. split; [reflexivity | exact Hb].
    + do 4 right. left. rewrite E, G. now left.
    + do 5 right. left. left. exact H.
    + do 5 right. left. right. exact H.
    + do 6 right. now left.
Qed.

Lemma In_draw_game_prompt (self : Game) (op : DrawOp) :
  op = click_prompt \/ op = restart_prompt ->
  (In op (draw_game self)
   <-> In op (if game_over self then [restart_prompt]
              else if negb (game_over self) && all_balls_stopped self
                      && (0 <? balls_left self)%Z
                   then [click_prompt]
                   else [])).
Proof.
  intros Hop. rewrite In_draw_game. split.
  - intros [H | [H | [(b & _ & H) | [(ball & _ & _ & H) | [H | [H | H]]]]]];
      try exact H; exfalso.
    + destruct Hop as [-> | ->];
        destruct H as [H | [H | [H | []]]]; discriminate.
    + destruct (game_over self && truthy (triangle self))%bool; [| contradiction].
      destruct (triangle self); [| contradiction].
      destruct H as [H | []]. destruct Hop as [-> | ->]; discriminate.
    + destruct Hop as [-> | ->]; discriminate.
    + destruct Hop as [-> | ->]; discriminate.
    + destruct Hop as [-> | ->]; destruct H as [H | [H | []]]; discriminate.
    + destruct Hop as [-> | ->]; discriminate.
  - intros H. do 5 right. left. exact H.
Qed.

(** X17: what the status line says matches what the game accepts.  In every
    state the main loop can reach from a new game, the frame shows "Click to
    place a ball" exactly when a left click on a free spot of the board
    would place a ball ([accepting_placement]), shows "Press R to play again"
    exactly when the round is finished, and never shows both. *)
Theorem X17_prompt_matches_state (frames : list (list (Env * Event))) (tx ty : Z) :
  let self := run frames (Game_init tx ty) in
  (In click_prompt (draw_game self) <-> accepting_placement self = true) /\
  (In restart_prompt (draw_game self) <-> game_over self = true) /\
  ~ (In click_prompt (draw_game self) /\ In restart_prompt (draw_game self)).
Proof.
  intros self.
  destruct (round_inv_run frames _ (round_inv_Game_init tx ty))
    as (_ & _ & Hc & _).
  fold self in Hc.
  assert (Hne : click_prompt <> restart_prompt) by discriminate.
  rewrite (In_draw_game_prompt self click_prompt) by now left.
  rewrite (In_draw_game_prompt self restart_prompt) by now right.
  unfold accepting_placement. rewrite <- Hc.
  assert (Hne' : restart_prompt <> click_prompt) by discriminate.
  destruct (game_over self); cbn [negb andb In].
  - rewrite andb_false_r.
    split; [split; [intros [H | []]; contradiction | discriminate] |].
    split; [split; [reflexivity | intros _; now left] |].
    intros [[H | []] _]. contradiction.
  - rewrite andb_true_r.
    destruct (all_balls_stopped self && (0 <? balls_left self)%Z)%bool; cbn [In].
    + split; [split; [reflexivity | intros _; now left] |].
      split; [split; [intros [H | []]; contradiction | discriminate] |].
      intros [_ [H | []]]. contradiction.
    + split; [split; [contradiction | discriminate] |].
      split; [split; [contradiction | discriminate] |].
      intros [[] _].
Qed.

(** ** Releasing the button *)

Lemma list_update_last {A : Type} (l : list A) (a b : A) :
  list_update (l ++ [a]) (length (l ++ [a]) - 1) b = l ++ [b].
Proof.
  induction l as [| h t IH]; [reflexivity |].
  replace (length ((h :: t) ++ [a]) - 1)%nat with (S (length (t ++ [a]) - 1))
    by (cbn [app length]; rewrite length_app; cbn [length]; lia).
  cbn [app list_update]. now rewrite IH.
Qed.

Lemma on_mouse_button_up_launch (self : Game) (balls : list Ball) (last_ball : Ball) :
  placing_ball self = true ->
  player_balls self = balls ++ [last_ball] ->
  on_mouse_button_up 1 self
  = {| best_score := best_score self; target_ball := target_ball self;
       player_balls :=
         balls ++ [move_towards (set_color last_ball PLAYER_BALL_COLOR)
                                (x (target_ball self)) (y (target_ball self))];
       balls_left := balls_left self;
       placing_ball := false; all_balls_stopped := false;
       game_over := game_over self; current_score := current_score self;
       triangle := triangle self; temp_ball := temp_ball self |}.
Proof.
  intros Hp El. unfold on_mouse_button_up.
  change (1 =? 1)%Z with true. rewrite Hp. cbn [andb].
  rewrite El, rev_app_distr. cbn [rev app].
  now rewrite list_update_last.
Qed.

(** X19: releasing the left button while a placement is in progress launches
    the ball placed last, and only it: that ball keeps its position, is
    marked moving and gets a velocity of magnitude [INITIAL_SPEED] pointing at
    the centre of the target; the other player balls and the target are
    untouched, [placing_ball] and [all_balls_stopped] are cleared.  Any other
    button, or a release with no placement in progress, changes nothing. *)
Theorem X19_release_launches_last_ball
    (self : Game) (balls : list Ball) (last_ball : Ball) :
  placing_ball self = true ->
  player_balls self = balls ++ [last_ball] ->
  x last_ball <> x (target_ball self) \/ y last_ball <> y (target_ball self) ->
  exists launched,
    player_balls (on_mouse_button_up 1 self) = balls ++ [launched] /\
    x launched = x last_ball /\ y launched = y last_ball /\
    moving launched = true /\ speed launched = INITIAL_SPEED /\
    vx launched * centre_distance last_ball (target_ball self)
    = INITIAL_SPEED * (x (target_ball self) - x last_ball) /\
    vy launched * centre_distance last_ball (target_ball self)
    = INITIAL_SPEED * (y (target_ball self) - y last_ball) /\
    target_ball (on_mouse_button_up 1 self) = target_ball self /\
    placing_ball (on_mouse_button_up 1 self) = false /\
    all_balls_stopped (on_mouse_button_up 1 self) = false /\
    balls_left (on_mouse_button_up 1 self) = balls_left self /\
    (forall button, button <> 1%Z -> on_mouse_button_up button self = self).
Proof.
  intros Hp El Hoff.
  rewrite (on_mouse_button_up_launch self balls last_ball Hp El).
  cbn [player_balls target_ball placing_ball all_balls_stopped balls_left].
  eexists. split; [reflexivity |].
  assert (Hoff' : x (target_ball self) <> x (set_color last_ball PLAYER_BALL_COLOR) \/
                  y (target_ball self) <> y (set_color last_ball PLAYER_BALL_COLOR)).
  { cbn [set_color x y]. destruct Hoff as [H | H]; [left | right]; congruence. }
  assert (Hd : 0 < centre_distance last_ball (target_ball self)).
  { unfold centre_distance. apply sqrt_lt_R0.
    pose proof (pow2_ge_0 (x (target_ball self) - x last_ball)) as H1.
    pose proof (pow2_ge_0 (y (target_ball self) - y last_ball)) as H2.
    destruct Hoff as [H | H].
    - assert (H3 : 0 < Rsqr (x (target_ball self) - x last_ball))
        by (apply Rsqr_pos_lt; lra).
      unfold Rsqr in H3.
      replace ((x (target_ball self) - x last_ball) ^ 2)
        with ((x (target_ball self) - x last_ball)
              * (x (target_ball self) - x last_ball)) in * by ring.
      lra.
    - assert (H3 : 0 < Rsqr (y (target_ball self) - y last_ball))
        by (apply Rsqr_pos_lt; lra).
      unfold Rsqr in H3.
      replace ((y (target_ball self) - y last_ball) ^ 2)
        with ((y (target_ball self) - y last_ball)
              * (y (target_ball self) - y last_ball)) in * by ring.
      lra. }
  unfold move_towards, move_towards_speed. cbn [set_color x y].
  fold (centre_distance last_ball (target_ball self)).
  rewrite (proj2 (gtb_true _ _) Hd).
  unfold speed. cbn [x y vx vy moving].
  repeat split; try (field; lra).
  - pose proof Hd as Hd'. unfold centre_distance in Hd'.
    pose proof (unit_normal _ _ Hd') as Hn.
    fold (centre_distance last_ball (target_ball self)) in Hn.
    set (d := centre_distance last_ball (target_ball self)) in *.
    replace (((x (target_ball self) - x last_ball) / d * INITIAL_SPEED) ^ 2
             + ((y (target_ball self) - y last_ball) / d * INITIAL_SPEED) ^ 2)
      with (INITIAL_SPEED ^ 2
            * (((x (target_ball self) - x last_ball) / d) ^ 2
               + ((y (target_ball self) - y last_ball) / d) ^ 2)) by ring.
    rewrite Hn, Rmult_1_r. apply sqrt_pow2. unfold INITIAL_SPEED. lra.
  - intros button Hb. unfold on_mouse_button_up.
    apply Z.eqb_neq in Hb. now rewrite Hb.
Qed.

(** X19 at the game after the click of [first_shot]. *)
Lemma X19_witness :
  exists launched,
    player_balls (on_mouse_button_up 1 (placed (Game_init 146 300) (100, 300)%Z))
    = [] ++ [launched] /\
    speed launched = INITIAL_SPEED.
Proof.
  destruct (X19_release_launches_last_ball
              (placed (Game_init 146 300) (100, 300)%Z) []
              (Ball_init 100 300 PLAYER_BALL_COLOR false))
    as (launched & H1 & _ & _ & _ & H2 & _).
  - reflexivity.
  - reflexivity.
  - left. cbn. lra.
  - exists launched. split; assumption.
Defined.

(** ** A board at rest *)

Lemma list_update_same {A : Type} (l : list A) (i : nat) (a : A) :
  nth_error l i = Some a -> list_update l i a = l.
Proof.
  revert i. induction l as [| h t IH]; intros i H; [reflexivity |].
  destruct i; cbn [nth_error list_update] in *.
  - now inversion H.
  - now rewrite IH.
Qed.

Lemma put_ball_same (self : Game) (r : Ref) (b : Ball) :
  get_ball self r = Some b -> put_ball self r b = self.
Proof.
  intros H. destruct self as [bs tb pb bl pl st go cs tr tmp].
  destruct r as [| i]; cbn in *.
  - now inversion H.
  - now rewrite list_update_same.
Qed.

Lemma update_balls_calls_shape (n : nat) (c : Call) :
  In c (update_balls_calls n) ->
  (exists r, c = CallUpdate r) \/
  (exists i, c = CallCollide (Player i) Target) \/
  (exists i j, i <> j /\ c = CallCollide (Player i) (Player j)).
Proof.
  unfold update_balls_calls. intros [<- | H]; [left; eauto |].
  apply in_flat_map in H. destruct H as (i & _ & H).
  unfold outer_calls in H.
  destruct H as [<- | [<- | H]]; [left; eauto | right; left; eauto |].
  unfold inner_calls in H. apply in_flat_map in H. destruct H as (j & _ & H).
  destruct (Nat.eqb_spec i j) as [| Hij]; [contradiction |].
  destruct H as [<- | []]. right. right. eauto.
Qed.

(** X20: a board at rest is a fixed point of the physics step: when no ball
    is marked moving and no two balls overlap (every centre distance is at
    least two radii), [update_balls] returns the game object unchanged. *)
Theorem X20_board_at_rest_is_fixed (self : Game) :
  all_stopped self = true ->
  (forall i a, nth_error (player_balls self) i = Some a ->
     BALL_RADIUS * 2 <= centre_distance a (target_ball self)) ->
  (forall i j a b, i <> j ->
     nth_error (player_balls self) i = Some a ->
     nth_error (player_balls self) j = Some b ->
     BALL_RADIUS * 2 <= centre_distance a b) ->
  update_balls self = self.
Proof.
  intros Hs Ht Hp.
  assert (Hrest : forall r b, get_ball self r = Some b -> moving b = false).
  { unfold all_stopped in Hs. intros r b H.
    destruct (moving (target_ball self)) eqn:Em; [discriminate |].
    destruct r as [| i]; cbn [get_ball] in H.
    - now inversion H; subst.
    - rewrite forallb_forall in Hs.
      apply nth_error_In in H. apply Hs in H. now apply negb_true_iff in H. }
  assert (Hstep : forall c, In c (update_balls_calls (length (player_balls self))) ->
                            exec_call self c = self).
  { intros c Hc.
    destruct (update_balls_calls_shape _ c Hc)
      as [(r & ->) | [(i & ->) | (i & j & Hij & ->)]]; cbn [exec_call].
    - destruct (get_ball self r) as [b |] eqn:E; [| reflexivity].
      rewrite (update_rest b (Hrest r b E)). now apply put_ball_same.
    - destruct (get_ball self (Player i)) as [a |] eqn:E; [| reflexivity].
      cbn [get_ball] in *.
      unfold collide_with.
      rewrite (collide_with_e_apart RESTITUTION a (target_ball self) (Ht i a E)).
      rewrite (put_ball_same self (Player i) a E).
      now apply put_ball_same.
    - destruct (get_ball self (Player i)) as [a |] eqn:E1; [| reflexivity].
      destruct (get_ball self (Player j)) as [b |] eqn:E2; [| reflexivity].
      unfold collide_with.
      rewrite (collide_with_e_apart RESTITUTION a b (Hp i j a b Hij E1 E2)).
      rewrite (put_ball_same self (Player i) a E1).
      now apply put_ball_same. }
  unfold update_balls.
  revert Hstep. generalize (update_balls_calls (length (player_balls self))).
  intros calls Hstep. induction calls as [| c cs IH]; [reflexivity |].
  cbn [fold_left]. rewrite (Hstep c) by now left.
  apply IH. intros c' Hc'. apply Hstep. now right.
Qed.

(** X20 at [finished_game]. *)
Lemma X20_witness : update_balls finished_game = finished_game.
Proof.
  assert (D1 : centre_distance (Ball_init 400 100 PLAYER_BALL_COLOR false)
                               (Ball_init 100 100 TARGET_BALL_COLOR true) = 300).
  { unfold centre_distance, Ball_init. cbn [x y]. apply sqrt_of_square; lra. }
  assert (D2 : centre_distance (Ball_init 100 500 PLAYER_BALL_COLOR false)
                               (Ball_init 100 100 TARGET_BALL_COLOR true) = 400).
  { unfold centre_distance, Ball_init. cbn [x y]. apply sqrt_of_square; lra. }
  assert (D3 : centre_distance (Ball_init 400 100 PLAYER_BALL_COLOR false)
                               (Ball_init 100 500 PLAYER_BALL_COLOR false) = 500).
  { unfold centre_distance, Ball_init. cbn [x y]. apply sqrt_of_square; lra. }
  assert (D4 : centre_distance (Ball_init 100 500 PLAYER_BALL_COLOR false)
                               (Ball_init 400 100 PLAYER_BALL_COLOR false) = 500).
  { rewrite centre_distance_sym. exact D3. }
  apply (X20_board_at_rest_is_fixed finished_game).
  - reflexivity.
  - intros i a H. unfold finished_game in *. cbn [player_balls target_ball] in *.
    destruct i as [| [| i]]; cbn [nth_error] in H.
    + inversion H; subst. rewrite D1. unfold BALL_RADIUS. lra.
    + inversion H; subst. rewrite D2. unfold BALL_RADIUS. lra.
    + destruct i; discriminate.
  - intros i j a b Hij Ha Hb. unfold finished_game in *.
    cbn [player_balls] in *.
    destruct i as [| [| i]], j as [| [| j]]; cbn [nth_error] in Ha, Hb;
      try congruence;
      try (destruct i; discriminate); try (destruct j; discriminate);
      inversion Ha; inversion Hb; subst.
    + rewrite D3. unfold BALL_RADIUS. lra.
    + rewrite D4. unfold BALL_RADIUS. lra.
Defined.

(** ** The scores *)

Lemma heron_nonneg (p1 p2 p3 : Point) : 0 <= fst (heron p1 p2 p3).
Proof.
  unfold heron. cbv zeta.
  destruct (_ && _)%bool; cbn [fst]; [apply sqrt_pos | lra].
Qed.

Lemma calculate_triangle_area_nonneg (self : Game) :
  0 <= fst (calculate_triangle_area self).
Proof.
  unfold calculate_triangle_area.
  destruct (player_balls self) as [| b0 [| b1 rest]]; cbn [fst]; try lra.
  pose proof (heron_nonneg (x (target_ball self), y (target_ball self))
                           (x b0, y b0) (x b1, y b1)) as H.
  destruct (heron _ _ _) as [area [t |]]; cbn [fst] in *; exact H.
Qed.

Lemma score_inv_handle_event (env : Env) (ev : Event) (st : Game * bool) :
  score_inv (fst st) -> score_inv (fst (handle_event env ev st)).
Proof.
  destruct st as [self running]. cbn [fst]. unfold score_inv. intros H.
  destruct ev as [| [| |] | button | button | |]; cbn [handle_event fst]; auto.
  - cbn [reset_game current_score best_score]. lra.
  - unfold on_mouse_button_down.
    destruct (_ && _)%bool; [| exact H].
    destruct (_ <=? _)%Z; [| exact H].
    destruct (can_place _ _); exact H.
  - unfold on_mouse_button_up.
    destruct (_ && _)%bool; [| exact H].
    destruct (rev _); exact H.
  - unfold on_mouse_motion.
    destruct (_ && _)%bool; [| exact H].
    destruct (can_place _ _); exact H.
Qed.

Lemma score_inv_tick (self : Game) : score_inv self -> score_inv (tick self).
Proof.
  unfold score_inv. intros H.
  destruct (update_balls_same_round self) as [(S1 & _ & _ & _ & _ & S6 & _) _].
  unfold tick.
  destruct (negb (all_balls_stopped self)); [| exact H].
  destruct (all_stopped (update_balls self) && _)%bool.
  - pose proof (calculate_triangle_area_nonneg (update_balls self)) as Hn.
    pose proof (calculate_triangle_area_best_score (update_balls self)) as Hb.
    destruct (calculate_triangle_area (update_balls self)) as [area self2].
    cbn [fst snd] in Hn, Hb. cbn [current_score best_score].
    rewrite gtb_max. split; [exact Hn | apply Rmax_r].
  - cbn [current_score best_score]. now rewrite S1, S6.
Qed.

Lemma score_inv_run (frames : list (list (Env * Event))) (self : Game) :
  score_inv self -> score_inv (run frames self).
Proof.
  revert self. induction frames as [| events rest IH]; intros self H; cbn [run];
    [exact H |].
  assert (H1 : forall st, score_inv (fst st) ->
             score_inv (fst (fold_left
                               (fun st ee => handle_event (fst ee) (snd ee) st)
                               events st))).
  { clear. induction events as [| ee es IH]; intros st Hst; cbn [fold_left];
      [exact Hst |].
    apply IH. now apply score_inv_handle_event. }
  specialize (H1 (self, true) H). unfold frame.
  destruct (fold_left _ events (self, true)) as [self1 running].
  cbn [fst] in H1. apply score_inv_tick in H1.
  destruct running; [now apply IH | exact H1].
Qed.

(** X21: in every state the main loop can reach from a new game, the
    current score is at least 0 and at most the best score: the best score
    shown is never below the score of the round on display. *)
Theorem X21_current_score_at_most_best (frames : list (list (Env * Event))) (tx ty : Z) :
  let self := run frames (Game_init tx ty) in
  0 <= current_score self <= best_score self.
Proof.
  intros self. apply (score_inv_run frames (Game_init tx ty)).
  unfold score_inv. cbn. lra.
Qed.

(** X22: a preview ball is drawn only while a click could place a ball: in
    every state the main loop can reach from a new game, a frame that draws
    the translucent preview is drawn in a state that accepts a placement, with
    no placement in progress, and the preview sits at the stored
    [temp_ball]. *)
Theorem X22_preview_only_while_accepting
    (frames : list (list (Env * Event))) (tx ty : Z) (topleft : R * R) :
  let self := run frames (Game_init tx ty) in
  In (DrawPreview topleft) (draw_game self) ->
  accepting_placement self = true /\ placing_ball self = false /\
  exists ball, temp_ball self = Some ball /\
               topleft = (x ball - BALL_RADIUS, y ball - BALL_RADIUS).
Proof.
  intros self Hin.
  destruct (round_inv_run frames _ (round_inv_Game_init tx ty))
    as (_ & _ & Hc & Hd & _).
  fold self in Hc, Hd.
  apply In_draw_game in Hin.
  destruct Hin as [H | [H | [(b & _ & H) | [(ball & E & G & H) | [H | [H | H]]]]]];
    try discriminate.
  - destruct H as [H | [H | [H | []]]]; discriminate.
  - destruct (game_over self && truthy (triangle self))%bool; [| contradiction].
    destruct (triangle self); [| contradiction].
    destruct H as [H | []]. discriminate.
  - rewrite !andb_true_iff in G. destruct G as [[G1 G2] G3].
    apply negb_true_iff in G1.
    assert (Hg : game_over self = false).
    { destruct (game_over self); [| reflexivity].
      destruct (Hd eq_refl) as (Hz & _). apply Z.ltb_lt in G3. lia. }
    split; [| split; [exact G1 |]].
    + unfold accepting_placement. now rewrite <- Hc, G2, G3, Hg.
    + exists ball. split; [exact E | now inversion H].
  - destruct H as [H | [H | []]]; discriminate.
  - destruct (game_over self).
    + destruct H as [H | []]. discriminate.
    + destruct (_ && _)%bool; [| contradiction].
      destruct H as [H | []]. discriminate.
Qed.

Lemma preview_run :
  run [ [ ({| mouse_pos := (100, 300)%Z; randint_x := 0; randint_y := 0 |},
           MOUSEMOTION) ] ] (Game_init 400 300)
  = set_temp_ball (Game_init 400 300)
                  (Some (Ball_init 100 300 PLAYER_BALL_COLOR false)).
Proof.
  assert (Hc : can_place (Game_init 400 300) (100, 300)%Z = true).
  { apply can_place_true. split; [| constructor].
    unfold distance_to, Game_init, Ball_init, BALL_RADIUS.
    cbn [fst snd x y target_ball].
    rewrite (sqrt_of_square _ 300) by lra. lra. }
  cbn [run frame fold_left fst snd handle_event mouse_pos].
  rewrite on_mouse_motion_guard, Hc.
  reflexivity.
Qed.

(** X22 at the new game with the target at (400, 300), after the mouse has
    moved to (100, 300). *)
Lemma X22_witness :
  let self := run [ [ ({| mouse_pos := (100, 300)%Z; randint_x := 0; randint_y := 0 |},
                       MOUSEMOTION) ] ] (Game_init 400 300) in
  In (DrawPreview (100 - BALL_RADIUS, 300 - BALL_RADIUS)) (draw_game self) /\
  accepting_placement self = true.
Proof.
  intros self.
  assert (Hin : In (DrawPreview (100 - BALL_RADIUS, 300 - BALL_RADIUS))
                   (draw_game self)).
  { unfold self. rewrite preview_run. apply In_draw_game.
    do 3 right. left.
    exists (Ball_init 100 300 PLAYER_BALL_COLOR false).
    repeat split. }
  split; [exact Hin |].
  apply (X22_preview_only_while_accepting
           [ [ ({| mouse_pos := (100, 300)%Z; randint_x := 0; randint_y := 0 |},
                MOUSEMOTION) ] ] 400 300
           (100 - BALL_RADIUS, 300 - BALL_RADIUS) Hin).
Defined.
